(** * SearchCache: the bounded, TTL-expiring LRU cache of
      packages/core/src/utils/searchCache.ts

    A shallow embedding of the class [SearchCache<T>] and of the JavaScript
    built-ins it calls ([Map], [String.prototype.toLowerCase],
    [String.prototype.trim], [JSON.stringify]), followed by the properties
    of the cache.

    Conventions of the embedding.
    - JavaScript numbers that the class handles (sizes, millisecond
      timestamps, TTLs) are integers, modelled in [Z].  The one sum the
      class computes, [Date.now() + ttl], is the integer sum; this is the
      sum of the doubles whenever the operands and the result are safe
      integers (magnitude below 2^53), as millisecond clocks and TTLs
      are.  The round trip of [set] and [get], whose threshold is the
      value of this sum, states the bound.
    - [Date.now()] is an input: every method that reads the clock takes the
      value read as its argument [now].
    - A method that mutates [this] returns the new object; a method that
      also returns a value returns the pair (value, new object).
    - An optional argument or field ([x?: number]) is an [option]; [None] is
      JavaScript's [undefined].  The type parameter [T] ranges over defined
      values, so [T | undefined] is [option T].
    - Strings are sequences of 8-bit code units read as Latin-1
      (U+0000..U+00FF), a range closed under [toLowerCase] and [trim].

    The web tools that use the cache (tools/web-search.ts, the web fetch
    tool, tools/image-url.ts) and the slash commands [/yolo] and [/plan]
    follow the cache.  An asynchronous method is the function from what it
    reads from the outside (the answers of the network, the abort signal,
    the clock) to its result, the state it leaves and the list of the
    requests it made.  The token display of ContextUsageDisplay.tsx computes
    with floating-point division and [toFixed]; it is not embedded. *)

From Stdlib Require Import List String Ascii ZArith Lia Bool DecimalString.
Import ListNotations.

Set Implicit Arguments.

(** ** JavaScript helpers *)

(** [a ?? b] *)
Definition nullish {A : Type} (a : option A) (b : A) : A :=
  match a with
  | Some x => x
  | None => b
  end.

(** Truthiness of a [string | undefined]: [undefined] and the empty string
    are falsy, every other string is truthy. *)
Definition truthy (s : option string) : bool :=
  match s with
  | None => false
  | Some EmptyString => false
  | Some (String _ _) => true
  end.

(** How a call ends: with a value, or with a thrown error. *)
Inductive outcome (A : Type) : Type :=
| Returns (a : A)
| Throws (message : string).
Arguments Returns {A} a.
Arguments Throws {A} message.

(** ** [Map<string, V>]

    A JavaScript [Map] iterates in insertion order, so it is an association
    list, oldest insertion first.  Keys are unique ([JsMap.wf]). *)
Module JsMap.
Section Ops.
Variable V : Type.

Definition t : Type := list (string * V).

Definition keys (m : t) : list string := List.map fst m.

Definition wf (m : t) : Prop := NoDup (keys m).

Definition size (m : t) : nat := List.length m.

(** [m.get(k)] *)
Fixpoint get (m : t) (k : string) : option V :=
  match m with
  | [] => None
  | (k', v) :: m' => if String.eqb k k' then Some v else get m' k
  end.

(** [m.has(k)], also the boolean that [m.delete(k)] returns *)
Definition has (m : t) (k : string) : bool :=
  match get m k with
  | Some _ => true
  | None => false
  end.

(** the map after [m.delete(k)] *)
Fixpoint delete (m : t) (k : string) : t :=
  match m with
  | [] => []
  | (k', v) :: m' =>
      if String.eqb k k' then delete m' k else (k', v) :: delete m' k
  end.

(** the map after [m.set(k, v)]: an existing key keeps its place and gets
    the new value, a new key goes to the end *)
Fixpoint set (m : t) (k : string) (v : V) : t :=
  match m with
  | [] => [(k, v)]
  | (k', v') :: m' =>
      if String.eqb k k' then (k', v) :: m' else (k', v') :: set m' k v
  end.

(** [m.keys().next().value] *)
Definition first_key (m : t) : option string :=
  match m with
  | [] => None
  | (k, _) :: _ => Some k
  end.

(** the map after [m.clear()] *)
Definition clear (m : t) : t := [].
End Ops.
End JsMap.

(** ** Strings: [toLowerCase], [trim] *)
Module JsString.

Local Open Scope N_scope.

(** Latin-1 upper-case letters: A-Z, and U+00C0..U+00DE without U+00D7. *)
Definition isUpper (c : ascii) : bool :=
  let n := N_of_ascii c in
  ((65 <=? n) && (n <=? 90))
  || ((192 <=? n) && (n <=? 222) && negb (n =? 215)).

Definition lowerChar (c : ascii) : ascii :=
  if isUpper c then ascii_of_N (N_of_ascii c + 32) else c.

(** [s.toLowerCase()] *)
Fixpoint toLowerCase (s : string) : string :=
  match s with
  | EmptyString => EmptyString
  | String c s' => String (lowerChar c) (toLowerCase s')
  end.

(** ECMAScript WhiteSpace and LineTerminator code points below U+0100:
    TAB, LF, VT, FF, CR, SP, NBSP. *)
Definition isWhiteSpace (c : ascii) : bool :=
  let n := N_of_ascii c in
  ((9 <=? n) && (n <=? 13)) || (n =? 32) || (n =? 160).

Fixpoint trimStart (s : string) : string :=
  match s with
  | EmptyString => EmptyString
  | String c s' => if isWhiteSpace c then trimStart s' else s
  end.

Fixpoint trimEnd (s : string) : string :=
  match s with
  | EmptyString => EmptyString
  | String c s' =>
      match trimEnd s' with
      | EmptyString => if isWhiteSpace c then EmptyString else String c EmptyString
      | r => String c r
      end
  end.

(** [s.trim()] *)
Definition trim (s : string) : string := trimEnd (trimStart s).

(** [s.startsWith(p)] *)
Fixpoint startsWith (s p : string) {struct p} : bool :=
  match p with
  | EmptyString => true
  | String b p' =>
      match s with
      | EmptyString => false
      | String a s' => Ascii.eqb a b && startsWith s' p'
      end
  end.

(** [s.includes(p)] *)
Fixpoint includes (s p : string) : bool :=
  startsWith s p
  || match s with
     | EmptyString => false
     | String _ s' => includes s' p
     end.

(** The string without its first [n] code units. *)
Fixpoint drop (n : nat) (s : string) : string :=
  match n, s with
  | O, _ => s
  | S _, EmptyString => EmptyString
  | S n', String _ s' => drop n' s'
  end.

(** [s.replace(p, r)] for a string pattern [p] and a replacement [r]
    without a dollar sign: the first occurrence of [p] is replaced; [s] is
    returned when there is none. *)
Fixpoint replace (s p r : string) : string :=
  if startsWith s p then (r ++ drop (String.length p) s)%string
  else match s with
       | EmptyString => EmptyString
       | String c s' => String c (replace s' p r)
       end.

(** [s.substring(0, n)] for a non-negative integer [n] *)
Fixpoint substring0 (n : nat) (s : string) : string :=
  match n, s with
  | O, _ => EmptyString
  | S _, EmptyString => EmptyString
  | S n', String c s' => String c (substring0 n' s')
  end.

(** The line feed, and a text between double quotes, for the template
    strings of the sources. *)
Definition nl : string := String (ascii_of_N 10) EmptyString.

Definition inQuotes (s : string) : string :=
  String (ascii_of_N 34) (s ++ String (ascii_of_N 34) EmptyString)%string.

(** [parts.join(sep)] *)
Fixpoint join (sep : string) (parts : list string) : string :=
  match parts with
  | [] => EmptyString
  | [p] => p
  | p :: ps => (p ++ sep ++ join sep ps)%string
  end.

(** [xs.map((x, i) => f(x, i))], the index counted from [i] *)
Fixpoint mapi {A B : Type} (f : A -> nat -> B) (i : nat) (xs : list A) : list B :=
  match xs with
  | [] => []
  | x :: xs' => f x i :: mapi f (S i) xs'
  end.

(** A string as a condition: the empty string is falsy. *)
Definition nonEmpty (s : string) : bool :=
  match s with
  | EmptyString => false
  | String _ _ => true
  end.

(** [String(n)] for an integer [n] that JavaScript prints in plain decimal *)
Definition ofInteger (n : Z) : string := NilZero.string_of_int (Z.to_int n).

End JsString.

(** ** [JSON.stringify] on plain data

  The values are the JSON-like ones: [undefined], [null], booleans,
  integers of magnitude below 10^21 (which JavaScript prints in plain
  decimal), strings, arrays and plain objects.  An object lists its own
  enumerable properties in the order the engine enumerates them. *)
Module Json.

Local Open Scope string_scope.

#[local] Set Warnings "-register-all".

Inductive value : Type :=
| Undefined
| Null
| Bool (b : bool)
| Number (n : Z)
| Str (s : string)
| Array (items : list value)
| Object (props : list (string * value)).

Definition dquote : ascii := "034"%char.

Definition hexDigit (n : N) : ascii :=
  if (n <? 10)%N then ascii_of_N (48 + n) else ascii_of_N (87 + n).

(** One code unit inside a quoted JSON string. *)
Definition escapeChar (c : ascii) : string :=
  let n := N_of_ascii c in
  if (n =? 8)%N then "\b"
  else if (n =? 9)%N then "\t"
  else if (n =? 10)%N then "\n"
  else if (n =? 12)%N then "\f"
  else if (n =? 13)%N then "\r"
  else if (n =? 34)%N then String "\" (String dquote EmptyString)
  else if (n =? 92)%N then "\\"
  else if (n <? 32)%N then
    "\u00" ++ String (hexDigit (n / 16)) (String (hexDigit (n mod 16)) EmptyString)
  else String c EmptyString.

Fixpoint escape (s : string) : string :=
  match s with
  | EmptyString => EmptyString
  | String c s' => escapeChar c ++ escape s'
  end.

Definition quote (s : string) : string :=
  String dquote (escape s ++ String dquote EmptyString).

Definition numberToString (n : Z) : string :=
  NilZero.string_of_int (Z.to_int n).

Fixpoint join (sep : string) (parts : list string) : string :=
  match parts with
  | [] => EmptyString
  | [p] => p
  | p :: ps => p ++ sep ++ join sep ps
  end.

(** [JSON.stringify(v)]; [None] is the result [undefined].  An
    [undefined] array element prints as [null], an [undefined] property
    is left out. *)
Fixpoint stringify (v : value) : option string :=
  match v with
  | Undefined => None
  | Null => Some "null"
  | Bool true => Some "true"
  | Bool false => Some "false"
  | Number n => Some (numberToString n)
  | Str s => Some (quote s)
  | Array items =>
      Some ("[" ++ join "," (List.map (fun x => nullish (stringify x) "null") items) ++ "]")
  | Object props =>
      let members :=
        (fix go (ps : list (string * value)) : list string :=
           match ps with
           | [] => []
           | (k, x) :: ps' =>
               match stringify x with
               | Some s => (quote k ++ ":" ++ s) :: go ps'
               | None => go ps'
               end
           end) props in
      Some ("{" ++ join "," members ++ "}")
  end.

(** [JSON.stringify(o)] for [o : Record<string, unknown>]: an object
    always prints as a string. *)
Definition stringifyRecord (props : list (string * value)) : string :=
  nullish (stringify (Object props)) EmptyString.

End Json.

(** ** The class [SearchCache<T>] *)
Module SearchCache.

Local Open Scope Z_scope.

(** [interface CacheEntry<T>] *)
Record CacheEntry (T : Type) : Type := {
  value : T;
  timestamp : Z;
  expiresAt : Z;
}.

(** The private fields of an instance. *)
Record SearchCache (T : Type) : Type := {
  cache : JsMap.t (CacheEntry T);
  maxSize : Z;
  defaultTtlMs : Z;
}.

(** The constructor's [options?: { maxSize?: number; ttlMs?: number }]. *)
Record Options : Type := {
  opt_maxSize : option Z;
  opt_ttlMs : option Z;
}.

(** [options?.f] *)
Definition optional {A : Type} (options : option Options)
    (f : Options -> option A) : option A :=
  match options with
  | Some o => f o
  | None => None
  end.

Section Methods.
Variable T : Type.

Definition with_cache (c : SearchCache T) (m : JsMap.t (CacheEntry T))
    : SearchCache T :=
  {| cache := m; maxSize := maxSize c; defaultTtlMs := defaultTtlMs c |}.

(** [new SearchCache(options)] *)
Definition constructor (options : option Options) : outcome (SearchCache T) :=
  Returns {| cache := [];
             maxSize := nullish (optional options opt_maxSize) 100;
             defaultTtlMs := nullish (optional options opt_ttlMs) (5 * 60 * 1000) |}.

(** [get(key)], with the clock reading [now] *)
Definition get (c : SearchCache T) (now : Z) (key : string)
    : option T * SearchCache T :=
  match JsMap.get (cache c) key with
  | None => (None, c)
  | Some entry =>
      if now >? expiresAt entry then
        (None, with_cache c (JsMap.delete (cache c) key))
      else
        (Some (value entry),
         with_cache c (JsMap.set (JsMap.delete (cache c) key) key entry))
  end.

(** The map after the eviction step that opens [set]. *)
Definition evict (c : SearchCache T) : JsMap.t (CacheEntry T) :=
  if Z.of_nat (JsMap.size (cache c)) >=? maxSize c then
    let oldestKey := JsMap.first_key (cache c) in
    if truthy oldestKey then
      match oldestKey with
      | Some k => JsMap.delete (cache c) k
      | None => cache c
      end
    else cache c
  else cache c.

(** [set(key, value, ttlMs)], with the clock reading [now].  The expiry
    [now + ttl] is the exact sum (see the conventions on safe integers). *)
Definition set (c : SearchCache T) (now : Z) (key : string) (v : T)
    (ttlMs : option Z) : SearchCache T :=
  with_cache c
    (JsMap.set (evict c) key
       {| value := v;
          timestamp := now;
          expiresAt := now + nullish ttlMs (defaultTtlMs c) |}).

(** [has(key)]: [this.get(key) !== undefined] *)
Definition has (c : SearchCache T) (now : Z) (key : string)
    : bool * SearchCache T :=
  let (r, c') := get c now key in
  (match r with Some _ => true | None => false end, c').

(** [delete(key)] *)
Definition delete (c : SearchCache T) (key : string) : bool * SearchCache T :=
  (JsMap.has (cache c) key, with_cache c (JsMap.delete (cache c) key)).

(** [clear()] *)
Definition clear (c : SearchCache T) : SearchCache T :=
  with_cache c (JsMap.clear (cache c)).

(** [getStats()] *)
Definition getStats (c : SearchCache T) : nat * Z :=
  (JsMap.size (cache c), maxSize c).

(** The current number of entries, [getStats().size]. *)
Definition size (c : SearchCache T) : Z := Z.of_nat (fst (getStats c)).

(** *** Sequences of calls *)

(** One call of a mutating method, with the clock reading it sees. *)
Inductive Op : Type :=
| OpGet (now : Z) (key : string)
| OpSet (now : Z) (key : string) (v : T) (ttlMs : option Z)
| OpHas (now : Z) (key : string)
| OpDelete (key : string)
| OpClear.

Definition step (c : SearchCache T) (op : Op) : SearchCache T :=
  match op with
  | OpGet now key => snd (get c now key)
  | OpSet now key v ttlMs => set c now key v ttlMs
  | OpHas now key => snd (has c now key)
  | OpDelete key => snd (delete c key)
  | OpClear => clear c
  end.

Definition run (c : SearchCache T) (ops : list Op) : SearchCache T :=
  List.fold_left step ops c.

(** [const c = new SearchCache(options)] followed by the calls [ops]. *)
Definition program (options : option Options) (ops : list Op)
    : outcome (SearchCache T) :=
  match constructor options with
  | Returns c => Returns (run c ops)
  | Throws message => Throws message
  end.

(** The states a program can reach: construct, then call methods. *)
Definition reachable (c : SearchCache T) : Prop :=
  exists options ops, program options ops = Returns c.
End Methods.

Arguments OpGet {T} now key.
Arguments OpHas {T} now key.
Arguments OpDelete {T} key.
Arguments OpClear {T}.

(** The two instances the module exports: [webSearchCache] (50 entries,
    10 minutes) and [webContentCache] (30 entries, 15 minutes). *)
Definition webSearchCache (T : Type) : outcome (SearchCache T) :=
  constructor T (Some {| opt_maxSize := Some 50; opt_ttlMs := Some (10 * 60 * 1000) |}).

Definition webContentCache : outcome (SearchCache string) :=
  constructor string (Some {| opt_maxSize := Some 30; opt_ttlMs := Some (15 * 60 * 1000) |}).

(** [static generateKey(query, options)] *)
Definition generateKey (query : string)
    (options : option (list (string * Json.value))) : string :=
  let normalizedQuery := JsString.trim (JsString.toLowerCase query) in
  let optionsStr :=
    match options with
    | Some o => Json.stringifyRecord o
    | None => EmptyString
    end in
  (normalizedQuery ++ ":" ++ optionsStr)%string.

End SearchCache.

(** ** Approval modes and the [Config] object

    [ApprovalMode], [ToolConfirmationOutcome] and the class [Config] are
    declared in files that are not among the sources.  The approval modes
    are the four members the sources name; of the confirmation outcomes
    the sources name [ProceedAlways] only, every other member is
    [OtherOutcome]; of a [Config] the state is a type parameter and the
    methods the sources call are the fields of [ConfigOps].  A setter call
    yields the state after it and, when it throws, the message of the
    error. *)
Module Approval.

Inductive ApprovalMode : Type := PLAN | DEFAULT | AUTO_EDIT | YOLO.

Definition mode_eqb (a b : ApprovalMode) : bool :=
  match a, b with
  | PLAN, PLAN | DEFAULT, DEFAULT | AUTO_EDIT, AUTO_EDIT | YOLO, YOLO => true
  | _, _ => false
  end.

Inductive ToolConfirmationOutcome : Type := ProceedAlways | OtherOutcome.

Class ConfigOps (Config : Type) : Type := {
  getApprovalMode : Config -> ApprovalMode;
  setApprovalMode : Config -> ApprovalMode -> Config * option string;
  getTavilyApiKey : Config -> option string;
}.

(** The [ToolCallConfirmationDetails] of the three web tools; [type] is
    always ['info']. *)
Record ConfirmationDetails : Type := {
  title : string;
  prompt : string;
  urls : option (list string);
}.

Section Confirm.
Context {Config : Type} `{ConfigOps Config}.

(** The test that opens [shouldConfirmExecute] in web-search.ts,
    image-url.ts and the web-fetch tool: no confirmation in the modes
    AUTO_EDIT, YOLO and PLAN. *)
Definition needsNoConfirmation (config : Config) : bool :=
  mode_eqb (getApprovalMode config) AUTO_EDIT
  || mode_eqb (getApprovalMode config) YOLO
  || mode_eqb (getApprovalMode config) PLAN.

(** The [onConfirm] callback of the details. *)
Definition onConfirm (config : Config) (outcome : ToolConfirmationOutcome)
    : Config * option string :=
  match outcome with
  | ProceedAlways => setApprovalMode config AUTO_EDIT
  | OtherOutcome => (config, None)
  end.
End Confirm.

End Approval.

(** ** The slash commands [/yolo] and [/plan] *)
Module Commands.
Import Approval.

Inductive MessageType : Type := info | error.

(** The [content] texts of the two commands, by name; the two failure
    texts carry the message of the error caught. *)
Inductive Content : Type :=
| ConfigurationNotAvailable
| YoloDisabled
| YoloEnabled
| YoloFailed (message : string)
| PlanDisabled
| PlanEnabled
| PlanFailed (message : string).

(** [MessageActionReturn]; [type] is always ['message']. *)
Record MessageActionReturn : Type := {
  messageType : MessageType;
  content : Content;
}.

Section Actions.
Context {Config : Type} `{ConfigOps Config}.

(** [yoloCommand.action(context, _args)], with [context.services.config];
    the pair is the message returned and the configuration afterwards. *)
Definition yoloAction (config : option Config) : MessageActionReturn * option Config :=
  match config with
  | None => ({| messageType := error; content := ConfigurationNotAvailable |}, None)
  | Some cfg =>
      let currentMode := getApprovalMode cfg in
      if mode_eqb currentMode YOLO then
        match setApprovalMode cfg DEFAULT with
        | (cfg', None) =>
            ({| messageType := info; content := YoloDisabled |}, Some cfg')
        | (cfg', Some message) =>
            ({| messageType := error; content := YoloFailed message |}, Some cfg')
        end
      else
        match setApprovalMode cfg YOLO with
        | (cfg', None) =>
            ({| messageType := info; content := YoloEnabled |}, Some cfg')
        | (cfg', Some message) =>
            ({| messageType := error; content := YoloFailed message |}, Some cfg')
        end
  end.

(** [planCommand.action(context, _args)] *)
Definition planAction (config : option Config) : MessageActionReturn * option Config :=
  match config with
  | None => ({| messageType := error; content := ConfigurationNotAvailable |}, None)
  | Some cfg =>
      let currentMode := getApprovalMode cfg in
      if mode_eqb currentMode PLAN then
        match setApprovalMode cfg DEFAULT with
        | (cfg', None) =>
            ({| messageType := info; content := PlanDisabled |}, Some cfg')
        | (cfg', Some message) =>
            ({| messageType := error; content := PlanFailed message |}, Some cfg')
        end
      else
        match setApprovalMode cfg PLAN with
        | (cfg', None) =>
            ({| messageType := info; content := PlanEnabled |}, Some cfg')
        | (cfg', Some message) =>
            ({| messageType := error; content := PlanFailed message |}, Some cfg')
        end
  end.
End Actions.

End Commands.

(** ** The web search tool (tools/web-search.ts) *)
Module WebSearch.
Import JsString Approval.
Local Open Scope string_scope.

Definition SEARCH_TIMEOUT_MS : Z := 8000.
Definition MAX_RETRIES : nat := 2.
Definition RETRY_DELAY_MS : Z := 500.

(** [TavilyResultItem] and [TavilySearchResponse]: a parsed response body.
    The fields [score] and [published_date], which no code reads, are left
    out; [results] may be missing at run time, as [data.results || []]
    foresees. *)
Module Tavily.
Record ResultItem : Type := {
  title : string;
  url : string;
  content : option string;
}.
Record SearchResponse : Type := {
  query : string;
  answer : option string;
  results : option (list ResultItem);
}.
End Tavily.

(** [CachedSearchResult] and its items *)
Module Cached.
Record Item : Type := {
  title : string;
  url : string;
  content : option string;
}.
Record SearchResult : Type := {
  answer : option string;
  results : list Item;
}.
End Cached.

(** An element of [WebSearchToolResult.sources] *)
Module Source.
Record t : Type := {
  title : string;
  url : string;
}.
End Source.

Record WebSearchToolParams : Type := {
  query : string;
}.

Record WebSearchToolResult : Type := {
  llmContent : string;
  returnDisplay : string;
  sources : option (list Source.t);
  cached : option bool;
}.

(** [WebSearchTool.validateToolParamValues(params)]: [None] is [null]. *)
Definition validateToolParamValues (params : WebSearchToolParams) : option string :=
  if negb (nonEmpty (query params)) || String.eqb (trim (query params)) ""
  then Some "The 'query' parameter cannot be empty."
  else None.

(** [getDescription()] *)
Definition getDescription (params : WebSearchToolParams) : string :=
  "Searching the web for: " ++ inQuotes (query params).

(** [shouldConfirmExecute(_abortSignal)]: [None] is the result [false]. *)
Definition shouldConfirmExecute {Config : Type} `{ConfigOps Config}
    (config : Config) (params : WebSearchToolParams) : option ConfirmationDetails :=
  if needsNoConfirmation config then None
  else Some {| title := "Confirm Web Search";
               prompt := "Search the web for: " ++ inQuotes (query params);
               urls := None |}.

(** [formatResult(data, cached)] *)
Definition formatResult (params : WebSearchToolParams) (data : Cached.SearchResult)
    (isCached : bool) : WebSearchToolResult :=
  let sources :=
    List.map (fun r => {| Source.title := Cached.title r; Source.url := Cached.url r |})
             (Cached.results data) in
  let sourceListFormatted :=
    mapi (fun s i =>
            "[" ++ ofInteger (Z.of_nat i + 1) ++ "] "
            ++ (if nonEmpty (Source.title s) then Source.title s else "Untitled")
            ++ " (" ++ Source.url s ++ ")")
         0 sources in
  let content :=
    match Cached.answer data with
    | Some a => if nonEmpty (trim a) then trim a else ""
    | None => ""
    end in
  let content :=
    if negb (nonEmpty content) then
      join nl (mapi (fun s i =>
                       ofInteger (Z.of_nat i + 1) ++ ". " ++ Source.title s
                       ++ " - " ++ Source.url s)
                    0 (firstn 3 sources))
    else content in
  let content :=
    if (0 <? List.length sourceListFormatted)%nat then
      content ++ nl ++ nl ++ "Sources:" ++ nl ++ join nl sourceListFormatted
    else content in
  if negb (nonEmpty (trim content)) then
    {| llmContent :=
         "No search results or information found for query: " ++ inQuotes (query params);
       returnDisplay := "No information found.";
       sources := None;
       cached := Some isCached |}
  else
    let cacheIndicator := if isCached then " (cached)" else "" in
    {| llmContent :=
         "Web search results for " ++ inQuotes (query params) ++ ":" ++ nl ++ nl ++ content;
       returnDisplay :=
         "Search results for " ++ inQuotes (query params) ++ " returned"
         ++ cacheIndicator ++ ".";
       sources := Some sources;
       cached := Some isCached |}.

(** *** [executeSearch]: the retry loop

    An error is its message.  What the loop reads from the outside in one
    pass is an [Attempt]: whether the signal is aborted when the pass
    starts, how [fetchWithTimeout] ends, and whether the signal is aborted
    when an error is caught.  What the loop does to the outside is a list
    of [Event]s. *)
Record Response : Type := {
  ok : bool;
  status : Z;
  statusText : string;
  text : outcome string;
  json : outcome Tavily.SearchResponse;
}.

Record Attempt : Type := {
  abortedAtStart : bool;
  fetched : outcome Response;
  abortedAtCatch : bool;
}.

Inductive Event : Type :=
| Fetch (url body : string)
| Sleep (ms : Z).

(** The request body, [JSON.stringify({api_key, query, ...})]. *)
Definition requestBody (apiKey searchQuery : string) : string :=
  Json.stringifyRecord
    [("api_key", Json.Str apiKey);
     ("query", Json.Str searchQuery);
     ("search_depth", Json.Str "basic");
     ("max_results", Json.Number 5);
     ("include_answer", Json.Bool true)].

(** The [try] block of one pass. *)
Definition tryOnce (apiKey searchQuery : string) (a : Attempt)
    : outcome Tavily.SearchResponse * list Event :=
  if abortedAtStart a then (Throws "Search aborted", [])
  else
    let events := [Fetch "https://api.tavily.com/search" (requestBody apiKey searchQuery)] in
    match fetched a with
    | Throws message => (Throws message, events)
    | Returns response =>
        if negb (ok response) then
          let body := match text response with
                      | Returns t => t
                      | Throws _ => ""
                      end in
          (Throws ("Tavily API error: " ++ ofInteger (status response) ++ " "
                   ++ statusText response
                   ++ (if nonEmpty body then " - " ++ body else "")),
           events)
        else (json response, events)
    end.

(** The passes [attempt], [attempt + 1], ... of the [for] loop, at most
    [passes] of them, and the [throw] after the loop. *)
Fixpoint searchLoop (apiKey searchQuery : string) (env : nat -> Attempt)
    (passes attempt : nat) (lastError : option string)
    : outcome Tavily.SearchResponse * list Event :=
  match passes with
  | O => (Throws (nullish lastError "Search failed after retries"), [])
  | S passes' =>
      match tryOnce apiKey searchQuery (env attempt) with
      | (Returns data, events) => (Returns data, events)
      | (Throws message, events) =>
          if abortedAtCatch (env attempt) || (MAX_RETRIES <=? attempt)%nat then
            (Throws message, events)
          else if includes message "abort" && negb (includes message "timeout") then
            (Throws message, events)
          else
            let delay := Sleep (RETRY_DELAY_MS * (Z.of_nat attempt + 1)) in
            let (result, later) :=
              searchLoop apiKey searchQuery env passes' (S attempt) (Some message) in
            (result, events ++ [delay] ++ later)%list
      end
  end.

(** [executeSearch(apiKey, query, signal)] *)
Definition executeSearch (apiKey searchQuery : string) (env : nat -> Attempt)
    : outcome Tavily.SearchResponse * list Event :=
  searchLoop apiKey searchQuery env (S MAX_RETRIES) 0 None.

(** *** [execute]

    [configKey] is [config.getTavilyApiKey()], [envKey] is
    [process.env['TAVILY_API_KEY']]; [webSearchCache] is the state of the
    shared cache; [t1] and [t2] are the clock readings of the cache's
    [get] and [set]; [getErrorMessage] is the function of utils/errors.ts,
    which is not among the sources, applied to the error's message. *)
Section Execute.
Variable getErrorMessage : string -> string.

Definition CacheState : Type := SearchCache.SearchCache Cached.SearchResult.

(** [config.getTavilyApiKey() || process.env['TAVILY_API_KEY']] *)
Definition apiKeyOf (configKey envKey : option string) : option string :=
  if truthy configKey then configKey else envKey.

(** [SearchCache.generateKey(this.params.query)] *)
Definition cacheKeyOf (params : WebSearchToolParams) : string :=
  SearchCache.generateKey (query params) None.

Definition execute (configKey envKey : option string) (params : WebSearchToolParams)
    (webSearchCache : CacheState) (t1 t2 : Z) (env : nat -> Attempt)
    : WebSearchToolResult * CacheState * list Event :=
  let apiKey := apiKeyOf configKey envKey in
  if negb (truthy apiKey) then
    ({| llmContent :=
          "Web search is disabled because TAVILY_API_KEY is not configured. Please set it in your settings.json, .env file, or via --tavily-api-key command line argument to enable web search.";
        returnDisplay :=
          "Web search disabled. Configure TAVILY_API_KEY to enable Tavily search.";
        sources := None;
        cached := None |},
     webSearchCache, [])
  else
    let cacheKey := cacheKeyOf params in
    let (cachedResult, cache1) := SearchCache.get webSearchCache t1 cacheKey in
    match cachedResult with
    | Some hit => (formatResult params hit true, cache1, [])
    | None =>
        match executeSearch (nullish apiKey "") (query params) env with
        | (Returns data, events) =>
            let cacheEntry :=
              {| Cached.answer := Tavily.answer data;
                 Cached.results :=
                   List.map (fun r => {| Cached.title := Tavily.title r;
                                         Cached.url := Tavily.url r;
                                         Cached.content := Tavily.content r |})
                            (nullish (Tavily.results data) []) |} in
            (formatResult params cacheEntry false,
             SearchCache.set cache1 t2 cacheKey cacheEntry None,
             events)
        | (Throws message, events) =>
            let errorMessage :=
              "Error during web search for query " ++ inQuotes (query params) ++ ": "
              ++ getErrorMessage message in
            let errorHint :=
              if includes message "timeout" then
                " (The search timed out. Try a simpler query or check your network connection.)"
              else if includes message "abort" then " (Search was cancelled.)"
              else "" in
            ({| llmContent := "Error: " ++ errorMessage ++ errorHint;
                returnDisplay := "Error performing web search." ++ errorHint;
                sources := None;
                cached := None |},
             cache1, events)
        end
    end.
End Execute.

End WebSearch.

(** ** The web fetch tool (src/unnamed/part_000) *)
Module WebFetch.
Import JsString Approval.
Local Open Scope string_scope.

Definition URL_FETCH_TIMEOUT_MS : Z := 8000.
Definition MAX_CONTENT_LENGTH : N := 100000.

Record WebFetchToolParams : Type := {
  url : string;
  prompt : string;
}.

(** [ToolErrorType]: the one member the sources use. *)
Inductive ToolErrorType : Type := WEB_FETCH_FALLBACK_FAILED.

Record ToolError : Type := {
  message : string;
  type : ToolErrorType;
}.

Record ToolResult : Type := {
  llmContent : string;
  returnDisplay : string;
  error : option ToolError;
}.

(** [WebFetchTool.validateToolParamValues(params)]: [None] is [null]. *)
Definition validateToolParamValues (params : WebFetchToolParams) : option string :=
  if negb (nonEmpty (url params)) || String.eqb (trim (url params)) "" then
    Some "The 'url' parameter cannot be empty."
  else if negb (startsWith (url params) "http://")
          && negb (startsWith (url params) "https://") then
    Some "The 'url' must be a valid URL starting with http:// or https://."
  else if negb (nonEmpty (prompt params)) || String.eqb (trim (prompt params)) "" then
    Some "The 'prompt' parameter cannot be empty."
  else None.

(** The prompt as [getDescription()] shows it. *)
Definition displayPrompt (params : WebFetchToolParams) : string :=
  if (100 <? String.length (prompt params))%nat
  then substring0 97 (prompt params) ++ "..."
  else prompt params.

(** [getDescription()] *)
Definition getDescription (params : WebFetchToolParams) : string :=
  "Fetching content from " ++ url params ++ " and processing with prompt: "
  ++ inQuotes (displayPrompt params).

(** [shouldConfirmExecute()]: [None] is the result [false]. *)
Definition shouldConfirmExecute {Config : Type} `{ConfigOps Config}
    (config : Config) (params : WebFetchToolParams) : option ConfirmationDetails :=
  if needsNoConfirmation config then None
  else Some {| Approval.title := "Confirm Web Fetch";
               Approval.prompt :=
                 "Fetch content from " ++ url params ++ " and process with: "
                 ++ prompt params;
               Approval.urls := Some [url params] |}.

(** The URL that [executeDirectFetch] fetches: a GitHub blob URL is turned
    into a raw URL. *)
Definition fetchUrl (params : WebFetchToolParams) : string :=
  if includes (url params) "github.com" && includes (url params) "/blob/" then
    replace (replace (url params) "github.com" "raw.githubusercontent.com") "/blob/" "/"
  else url params.

(** An error caught by [executeDirectFetch]: its message, and the message
    of its [cause] when the cause is an [Error]. *)
Record Failure : Type := {
  failure_message : string;
  failure_cause : option string;
}.

(** How a call that may throw such an error ends. *)
Inductive attempt (A : Type) : Type :=
| Done (a : A)
| Failed (e : Failure).
Arguments Done {A} a.
Arguments Failed {A} e.

(** The response of [fetchWithTimeout]. *)
Record Response : Type := {
  ok : bool;
  status : Z;
  statusText : string;
  text : attempt string;
}.

Inductive Event : Type :=
| Fetch (target : string)
| Generate (request : string).

(** The hint that the [catch] block appends to its messages. *)
Definition errorHint (fullErrorMsg : string) : string :=
  if includes fullErrorMsg "timeout" || includes fullErrorMsg "etimedout" then
    " Try again or check if the URL is accessible."
  else if includes fullErrorMsg "econnrefused" then
    " The server refused the connection."
  else if includes fullErrorMsg "enotfound" || includes fullErrorMsg "getaddrinfo" then
    " Could not resolve the hostname. Check the URL."
  else if includes fullErrorMsg "certificate" || includes fullErrorMsg "ssl"
          || includes fullErrorMsg "cert" then
    " SSL/TLS certificate issue. The site may have an invalid certificate."
  else if includes fullErrorMsg "fetch failed" then
    " Network request failed. This could be due to SSL issues, network problems, or the site blocking automated requests."
  else if includes fullErrorMsg "econnreset" then
    " Connection was reset by the server."
  else "".

(** The [catch] block of [executeDirectFetch]. *)
Definition failureResult (target : string) (e : Failure) : ToolResult :=
  let errorMsg :=
    if nonEmpty (failure_message e) then failure_message e else "Unknown error" in
  let causeMsg :=
    match failure_cause e with
    | Some m => ": " ++ m
    | None => ""
    end in
  let errorMessage := "Error during fetch for " ++ target ++ ": " ++ errorMsg ++ causeMsg in
  let hint := errorHint (toLowerCase (errorMsg ++ causeMsg)) in
  {| llmContent := "Error: " ++ errorMessage ++ hint;
     returnDisplay := "Error: " ++ errorMsg ++ hint;
     error := Some {| message := errorMessage; type := WEB_FETCH_FALLBACK_FAILED |} |}.

(** The prompt sent to the model. *)
Definition fallbackPrompt (params : WebFetchToolParams) (textContent : string) : string :=
  "The user requested the following: " ++ inQuotes (prompt params) ++ "." ++ nl
  ++ nl
  ++ "I have fetched the content from " ++ url params
  ++ ". Please use the following content to answer the user's request." ++ nl
  ++ nl
  ++ "---" ++ nl
  ++ textContent ++ nl
  ++ "---".

(** *** [executeDirectFetch] and [execute]

    [fetchWithTimeout] (utils/fetch.ts), [convert] (the html-to-text
    package, with the options of the call) and the model call
    [geminiClient.generateContent] followed by [getResponseText] are
    outside the sources: they are parameters.  [webContentCache] is the
    state of the shared cache; [t1] and [t2] are the clock readings of
    its [get] and [set]. *)
Section Execute.
Variable fetchWithTimeout : string -> attempt Response.
Variable convert : string -> string.
Variable generateContent : string -> attempt (option string).

Definition CacheState : Type := SearchCache.SearchCache string.

Definition executeDirectFetch (params : WebFetchToolParams)
    (webContentCache : CacheState) (t1 t2 : Z)
    : ToolResult * CacheState * list Event :=
  let target := fetchUrl params in
  let cacheKey := SearchCache.generateKey target None in
  let (cachedText, cache1) := SearchCache.get webContentCache t1 cacheKey in
  (* the text to process, whether it came from the cache, the cache and
     the events so far; or the error thrown while fetching *)
  let fetched : attempt (string * bool) * CacheState * list Event :=
    if truthy cachedText then (Done (nullish cachedText "", true), cache1, [])
    else
      match fetchWithTimeout target with
      | Failed e => (Failed e, cache1, [Fetch target])
      | Done response =>
          if negb (ok response) then
            (Failed {| failure_message :=
                         "Request failed with status code "
                         ++ ofInteger (status response) ++ " " ++ statusText response;
                       failure_cause := None |},
             cache1, [Fetch target])
          else
            match text response with
            | Failed e => (Failed e, cache1, [Fetch target])
            | Done html =>
                let textContent := substring0 (N.to_nat MAX_CONTENT_LENGTH) (convert html) in
                (Done (textContent, false),
                 SearchCache.set cache1 t2 cacheKey textContent None,
                 [Fetch target])
            end
      end in
  match fetched with
  | (Failed e, cache2, events) => (failureResult target e, cache2, events)
  | (Done (textContent, isCached), cache2, events) =>
      let request := fallbackPrompt params textContent in
      match generateContent request with
      | Failed e => (failureResult target e, cache2, (events ++ [Generate request])%list)
      | Done response =>
          let resultText :=
            match response with
            | Some t => t
            | None => ""
            end in
          let cacheIndicator := if isCached then " (cached content)" else "" in
          ({| llmContent := resultText;
              returnDisplay := "Content from " ++ url params
                               ++ " processed successfully" ++ cacheIndicator ++ ".";
              error := None |},
           cache2, (events ++ [Generate request])%list)
      end
  end.

(** [execute(signal)]: the test of [isPrivateIp] only chooses a log line. *)
Definition execute (params : WebFetchToolParams) (webContentCache : CacheState)
    (t1 t2 : Z) : ToolResult * CacheState * list Event :=
  executeDirectFetch params webContentCache t1 t2.
End Execute.

End WebFetch.

(** ** The image tool (tools/image-url.ts) *)
Module ImageUrl.
Import JsString Approval.
Local Open Scope string_scope.

Definition IMAGE_FETCH_TIMEOUT_MS : Z := 15000.
Definition MAX_IMAGE_SIZE_BYTES : Z := 20 * 1024 * 1024.

(** [SUPPORTED_IMAGE_TYPES], as the list of its own properties. *)
Definition SUPPORTED_IMAGE_TYPES : list (string * string) :=
  [("image/jpeg", "jpeg");
   ("image/jpg", "jpg");
   ("image/png", "png");
   ("image/gif", "gif");
   ("image/webp", "webp");
   ("image/svg+xml", "svg");
   ("image/bmp", "bmp")].

(** [getMimeTypeFromUrl(url)]: [None] is [null]. *)
Definition getMimeTypeFromUrl (url : string) : option string :=
  let urlLower := toLowerCase url in
  if includes urlLower ".jpg" || includes urlLower ".jpeg" then Some "image/jpeg"
  else if includes urlLower ".png" then Some "image/png"
  else if includes urlLower ".gif" then Some "image/gif"
  else if includes urlLower ".webp" then Some "image/webp"
  else if includes urlLower ".svg" then Some "image/svg+xml"
  else if includes urlLower ".bmp" then Some "image/bmp"
  else None.

Record ReadImageUrlToolParams : Type := {
  url : string;
  description : option string;
}.

(** [getDescription()] *)
Definition getDescription (params : ReadImageUrlToolParams) : string :=
  let desc := if truthy (description params)
              then " (" ++ nullish (description params) "" ++ ")"
              else "" in
  "Fetching image from " ++ url params ++ desc.

(** [shouldConfirmExecute()]: [None] is the result [false]. *)
Definition shouldConfirmExecute {Config : Type} `{ConfigOps Config}
    (config : Config) (params : ReadImageUrlToolParams) : option ConfirmationDetails :=
  if needsNoConfirmation config then None
  else Some {| title := "Confirm Image Fetch";
               prompt := "Fetch image from: " ++ url params;
               urls := Some [url params] |}.

(** The URL that [execute] fetches: a GitHub blob URL is turned into a raw
    URL. *)
Definition fetchUrl (params : ReadImageUrlToolParams) : string :=
  if includes (url params) "github.com" && includes (url params) "/blob/" then
    replace (replace (url params) "github.com" "raw.githubusercontent.com") "/blob/" "/"
  else url params.

(** [ReadImageUrlTool.validateToolParamValues(params)]: [None] is [null]. *)
Definition validateToolParamValues (params : ReadImageUrlToolParams) : option string :=
  if negb (nonEmpty (url params)) || String.eqb (trim (url params)) "" then
    Some "The 'url' parameter cannot be empty."
  else if negb (startsWith (url params) "http://")
          && negb (startsWith (url params) "https://") then
    Some "The 'url' must be a valid URL starting with http:// or https://."
  else None.

End ImageUrl.

(** * Vocabulary of the properties *)

Section CacheVocabulary.
Import SearchCache.
Local Open Scope Z_scope.
Variable T : Type.

(** The call is not a [set] on the empty key. *)
Definition set_key_nonempty (op : Op T) : Prop :=
  match op with
  | OpSet _ key _ _ => key <> EmptyString
  | _ => True
  end.

(** No entry is stored under the empty key. *)
Definition no_empty_key (c : SearchCache T) : Prop := ~ In EmptyString (JsMap.keys (cache c)).

(** A stored entry does not expire before it was created. *)
Definition entry_ok (e : CacheEntry T) : Prop := timestamp e <= expiresAt e.

Definition entries_ok (c : SearchCache T) : Prop := Forall (fun kv => entry_ok (snd kv)) (cache c).

(** The TTL that a [set] call uses is not negative. *)
Definition ttl_nonneg (defaultTtl : Z) (op : Op T) : Prop :=
  match op with
  | OpSet _ _ _ (Some ttl) => 0 <= ttl
  | OpSet _ _ _ None => 0 <= defaultTtl
  | _ => True
  end.

(** The effective TTL in the words of the claim. *)
Definition claimedEffectiveTtl (ttl : option Z) (defaultTtl : Z) : Z :=
  match ttl with
  | Some t => if 0 <? t then t else defaultTtl
  | None => defaultTtl
  end.
End CacheVocabulary.

Arguments set_key_nonempty {T} op.
Arguments ttl_nonneg {T} defaultTtl op.

Section StringVocabulary.
Import JsString.
Local Open Scope string_scope.

(** The string consists of whitespace only. *)
Fixpoint allWhiteSpace (s : string) : bool :=
  match s with
  | EmptyString => true
  | String c s' => isWhiteSpace c && allWhiteSpace s'
  end.

(** Two code units that are the same letter in possibly different case:
    equal, or one is the upper-case letter whose lower-case form, 32
    code points above, is the other. *)
Inductive sameLetter : ascii -> ascii -> Prop :=
| same_unit c : sameLetter c c
| upper_then_lower c :
    isUpper c = true -> sameLetter c (ascii_of_N (N_of_ascii c + 32))
| lower_then_upper c :
    isUpper c = true -> sameLetter (ascii_of_N (N_of_ascii c + 32)) c.

(** Strings that differ only in letter case. *)
Inductive sameUpToCase : string -> string -> Prop :=
| same_empty : sameUpToCase "" ""
| same_step a b s t :
    sameLetter a b -> sameUpToCase s t -> sameUpToCase (String a s) (String b t).

End StringVocabulary.

Section RecencyVocabulary.
Import SearchCache.
Variable T : Type.

(** The last [n] elements of a list, in their order. *)
Definition lastN {A : Type} (n : nat) (l : list A) : list A :=
  skipn (List.length l - n) l.

(** One [set] call: clock reading, key, value, TTL. *)
Definition Insert : Type := (Z * string * T * option Z)%type.

Definition insert_key (i : Insert) : string := snd (fst (fst i)).

Definition insert_op (i : Insert) : Op T :=
  match i with
  | (now, key, v, ttl) => OpSet now key v ttl
  end.

(** Every [set] of the sequence uses a key made by [generateKey]. *)
Definition set_key_generated (op : Op T) : Prop :=
  match op with
  | OpSet _ key _ _ => exists query options, key = generateKey query options
  | _ => True
  end.
End RecencyVocabulary.

Arguments set_key_generated {T} op.

Section ToolVocabulary.
Local Open Scope Z_scope.

(** The number of requests in the events of a web search. *)
Fixpoint fetches (events : list WebSearch.Event) : nat :=
  match events with
  | [] => 0%nat
  | WebSearch.Fetch _ _ :: rest => S (fetches rest)
  | WebSearch.Sleep _ :: rest => fetches rest
  end.

(** The total time slept, in milliseconds. *)
Fixpoint slept (events : list WebSearch.Event) : Z :=
  match events with
  | [] => 0
  | WebSearch.Fetch _ _ :: rest => slept rest
  | WebSearch.Sleep ms :: rest => ms + slept rest
  end.

(** The longest time the retry loop can still sleep from pass [attempt]
    on: 500 ms after pass 0 and 1000 ms after pass 1. *)
Definition backoffBudget (attempt : nat) : Z :=
  match attempt with
  | 0%nat => 1500
  | 1%nat => 1000
  | _ => 0
  end.

(** The retry loop sleeps and tries again after an error with this
    message, when the signal is not aborted and a pass is left. *)
Definition retryable (message : string) : Prop :=
  JsString.includes message "abort" = false \/ JsString.includes message "timeout" = true.

(** The cached result has no answer, or one of whitespace only. *)
Definition answerBlank (data : WebSearch.Cached.SearchResult) : Prop :=
  match WebSearch.Cached.answer data with
  | None => True
  | Some a => allWhiteSpace a = true
  end.

(** The page could not be obtained: the request threw, the status was
    not [ok], or reading the body threw. *)
Definition fetchFails (a : WebFetch.attempt WebFetch.Response) : Prop :=
  match a with
  | WebFetch.Failed _ => True
  | WebFetch.Done r =>
      WebFetch.ok r = false \/ exists e, WebFetch.text r = WebFetch.Failed e
  end.

(** The events of a web fetch contain a request. *)
Definition hasFetch (events : list WebFetch.Event) : bool :=
  existsb (fun e => match e with
                    | WebFetch.Fetch _ => true
                    | WebFetch.Generate _ => false
                    end) events.

(** A setter call that does not throw sets the mode. *)
Definition setterSetsMode (Config : Type) `{Approval.ConfigOps Config} : Prop :=
  forall (config : Config) (mode : Approval.ApprovalMode),
    snd (Approval.setApprovalMode config mode) = None ->
    Approval.getApprovalMode (fst (Approval.setApprovalMode config mode)) = mode.

(** A [Config] for examples: the mode and whether the folder is trusted;
    the setter refuses YOLO and AUTO_EDIT in a folder that is not trusted
    and leaves the mode as it is. *)
Definition sampleSetter (config : Approval.ApprovalMode * bool)
    (mode : Approval.ApprovalMode) : (Approval.ApprovalMode * bool) * option string :=
  match mode, snd config with
  | Approval.YOLO, false | Approval.AUTO_EDIT, false =>
      (config, Some "Cannot enable privileged approval modes in an untrusted folder."%string)
  | _, _ => ((mode, snd config), None)
  end.
End ToolVocabulary.

Section SearchResultVocabulary.
Import JsString WebSearch.
Local Open Scope string_scope.

(** The two shapes of a result of [formatResult]. *)
Definition noInformation (params : WebSearchToolParams) (isCached : bool)
    : WebSearchToolResult :=
  {| llmContent :=
       "No search results or information found for query: " ++ inQuotes (query params);
     returnDisplay := "No information found.";
     sources := None;
     cached := Some isCached |}.

Definition found (params : WebSearchToolParams) (data : Cached.SearchResult)
    (isCached : bool) (content : string) : WebSearchToolResult :=
  {| llmContent :=
       "Web search results for " ++ inQuotes (query params) ++ ":" ++ nl ++ nl ++ content;
     returnDisplay :=
       "Search results for " ++ inQuotes (query params) ++ " returned"
       ++ (if isCached then " (cached)" else "") ++ ".";
     sources := Some (List.map (fun r => {| Source.title := Cached.title r;
                                            Source.url := Cached.url r |})
                               (Cached.results data));
     cached := Some isCached |}.
End SearchResultVocabulary.

Section SampleVocabulary.
Import SearchCache.
Local Open Scope string_scope.
Local Open Scope Z_scope.

(** A full cache of capacity 2 for examples: "a" is the oldest key. *)
Definition sampleCache : SearchCache Z :=
  {| cache := [("a", {| value := 7; timestamp := 0; expiresAt := 10 |});
               ("b", {| value := 8; timestamp := 5; expiresAt := 15 |})];
     maxSize := 2;
     defaultTtlMs := 10 |}.

(** A network for examples in which every request is answered with the
    given response and the signal is never aborted. *)
Definition steadyNetwork (response : WebSearch.Response) (attempt : nat)
    : WebSearch.Attempt :=
  {| WebSearch.abortedAtStart := false;
     WebSearch.fetched := Returns response;
     WebSearch.abortedAtCatch := false |}.

Definition serverError : WebSearch.Response :=
  {| WebSearch.ok := false;
     WebSearch.status := 500;
     WebSearch.statusText := "Internal Server Error";
     WebSearch.text := Returns "";
     WebSearch.json := Throws "Unexpected end of JSON input" |}.


(** The empty search cache as the module constructs it (50 entries, 10
    minutes). *)
Definition emptySearchCache : WebSearch.CacheState :=
  {| cache := []; maxSize := 50; defaultTtlMs := 600000 |}.

(** A content cache for examples that holds one page. *)
Definition samplePage : WebFetch.WebFetchToolParams :=
  {| WebFetch.url := "https://example.com/doc"; WebFetch.prompt := "Summarize" |}.

Definition sampleContentCache : WebFetch.CacheState :=
  {| cache := [(generateKey (WebFetch.fetchUrl samplePage) None,
                {| value := "Hello"; timestamp := 0; expiresAt := 900000 |})];
     maxSize := 30;
     defaultTtlMs := 900000 |}.
End SampleVocabulary.

#[local] Instance sampleConfigOps : Approval.ConfigOps (Approval.ApprovalMode * bool) :=
  {| Approval.getApprovalMode := fst;
     Approval.setApprovalMode := sampleSetter;
     Approval.getTavilyApiKey := fun _ => None |}.

Section KeyVocabulary.
Local Open Scope string_scope.











End KeyVocabulary.

(** The integers that a double holds exactly, with exact sums: the safe
    integers, of magnitude below 2^53. *)
Definition safeInteger (n : Z) : Prop :=
  (- 9007199254740992 < n < 9007199254740992)%Z.

(** Case analysis over the 256 code units. *)
Ltac each_code_unit c :=
  destruct c as [[] [] [] [] [] [] [] []]; try discriminate; try reflexivity.

(** * Properties *)

(** ** Facts about [Map] *)
Section JsMapFacts.
Variable V : Type.
Implicit Types (m : JsMap.t V) (k : string) (v : V).

Lemma jsmap_get_set_same m k v : JsMap.get (JsMap.set m k v) k = Some v.
Proof.
  induction m as [|[k' v'] m IH]; simpl.
  - now rewrite String.eqb_refl.
  - destruct (String.eqb k k') eqn:E; simpl; rewrite E; auto.
Qed.

Lemma jsmap_get_set_other m k k' v :
  k <> k' -> JsMap.get (JsMap.set m k v) k' = JsMap.get m k'.
Proof.
  intros Hne. induction m as [|[k0 v0] m IH]; simpl.
  - destruct (String.eqb_spec k' k); congruence.
  - destruct (String.eqb_spec k k0) as [->|Hk]; simpl.
    + destruct (String.eqb_spec k' k0); congruence.
    + now rewrite IH.
Qed.

Lemma jsmap_get_delete_same m k : JsMap.get (JsMap.delete m k) k = None.
Proof.
  induction m as [|[k' v'] m IH]; simpl; auto.
  destruct (String.eqb k k') eqn:E; simpl; auto.
  now rewrite E.
Qed.

Lemma jsmap_get_delete_other m k k' :
  k <> k' -> JsMap.get (JsMap.delete m k) k' = JsMap.get m k'.
Proof.
  intros Hne. induction m as [|[k0 v0] m IH]; simpl; auto.
  destruct (String.eqb_spec k k0) as [->|Hk]; simpl.
  - destruct (String.eqb_spec k' k0); congruence.
  - now rewrite IH.
Qed.

Lemma jsmap_delete_absent m k : JsMap.get m k = None -> JsMap.delete m k = m.
Proof.
  induction m as [|[k' v'] m IH]; simpl; auto.
  destruct (String.eqb k k'); [discriminate|].
  intros H. now rewrite IH.
Qed.

Lemma jsmap_set_absent m k v :
  JsMap.get m k = None -> JsMap.set m k v = m ++ [(k, v)].
Proof.
  induction m as [|[k' v'] m IH]; simpl; auto.
  destruct (String.eqb k k'); [discriminate|].
  intros H. now rewrite IH.
Qed.

Lemma jsmap_keys_set_present m k v :
  JsMap.get m k <> None -> JsMap.keys (JsMap.set m k v) = JsMap.keys m.
Proof.
  induction m as [|[k' v'] m IH]; simpl; [congruence|].
  destruct (String.eqb k k'); simpl; auto.
  intros H. now rewrite IH.
Qed.

Lemma jsmap_size_delete_le m k : (JsMap.size (JsMap.delete m k) <= JsMap.size m)%nat.
Proof.
  unfold JsMap.size.
  induction m as [|[k' v'] m IH]; simpl; auto.
  destruct (String.eqb k k'); simpl; lia.
Qed.

Lemma jsmap_size_delete_lt m k :
  JsMap.get m k <> None -> (JsMap.size (JsMap.delete m k) < JsMap.size m)%nat.
Proof.
  unfold JsMap.size.
  induction m as [|[k' v'] m IH]; simpl; [congruence|].
  destruct (String.eqb k k'); simpl; intros H.
  - pose proof (jsmap_size_delete_le m k). unfold JsMap.size in *. lia.
  - apply IH in H. lia.
Qed.

Lemma jsmap_size_set_le m k v : (JsMap.size (JsMap.set m k v) <= S (JsMap.size m))%nat.
Proof.
  unfold JsMap.size.
  induction m as [|[k' v'] m IH]; simpl; auto.
  destruct (String.eqb k k'); simpl; lia.
Qed.

Lemma jsmap_size_set_present m k v :
  JsMap.get m k <> None -> JsMap.size (JsMap.set m k v) = JsMap.size m.
Proof.
  unfold JsMap.size.
  induction m as [|[k' v'] m IH]; simpl; [congruence|].
  destruct (String.eqb k k'); simpl; auto.
Qed.

Lemma jsmap_get_first_key m k : JsMap.first_key m = Some k -> JsMap.get m k <> None.
Proof.
  destruct m as [|[k' v'] m]; simpl; [discriminate|].
  intros [= ->]. now rewrite String.eqb_refl.
Qed.

Lemma jsmap_get_in m k v : JsMap.get m k = Some v -> In (k, v) m.
Proof.
  induction m as [|[k' v'] m IH]; simpl; [discriminate|].
  destruct (String.eqb_spec k k') as [->|Hk].
  - intros [= ->]. now left.
  - intros H. right. auto.
Qed.

Lemma jsmap_in_keys_get m k : In k (JsMap.keys m) <-> JsMap.get m k <> None.
Proof.
  induction m as [|[k' v'] m IH]; simpl.
  - split; [tauto | congruence].
  - destruct (String.eqb_spec k k') as [->|Hk].
    + split; [congruence | auto].
    + rewrite <- IH. split; [intros [?|?]; congruence || auto | auto].
Qed.

Lemma jsmap_keys_delete m k k' :
  In k' (JsMap.keys (JsMap.delete m k)) <-> In k' (JsMap.keys m) /\ k' <> k.
Proof.
  rewrite !jsmap_in_keys_get.
  destruct (String.eqb_spec k k') as [->|Hk].
  - rewrite jsmap_get_delete_same. split; [congruence | tauto].
  - rewrite jsmap_get_delete_other by assumption. split; [auto | tauto].
Qed.

Lemma jsmap_keys_set m k v k' :
  In k' (JsMap.keys (JsMap.set m k v)) <-> In k' (JsMap.keys m) \/ k' = k.
Proof.
  rewrite !jsmap_in_keys_get.
  destruct (String.eqb_spec k k') as [->|Hk].
  - rewrite jsmap_get_set_same. split; [auto | congruence].
  - rewrite jsmap_get_set_other by assumption. split; [auto | intros [?|?]; congruence].
Qed.

(** The operations keep the keys unique. *)
Lemma jsmap_wf_delete m k : JsMap.wf m -> JsMap.wf (JsMap.delete m k).
Proof.
  unfold JsMap.wf.
  induction m as [|[k' v'] m IH]; simpl; auto.
  intros H. inversion H as [|? ? Hnin Hnd]; subst.
  destruct (String.eqb k k'); simpl; auto.
  constructor; auto.
  intros Hin. apply jsmap_keys_delete in Hin. tauto.
Qed.

Lemma jsmap_wf_set m k v : JsMap.wf m -> JsMap.wf (JsMap.set m k v).
Proof.
  unfold JsMap.wf.
  induction m as [|[k' v'] m IH]; simpl.
  - intros _. constructor; [simpl; tauto | constructor].
  - intros H. inversion H as [|? ? Hnin Hnd]; subst.
    destruct (String.eqb_spec k k') as [->|Hk]; simpl.
    + constructor; auto.
    + constructor; auto.
      intros Hin. apply jsmap_keys_set in Hin. destruct Hin; congruence.
Qed.

(** A property of the stored values survives [delete], and survives
    [set] of a value that has it. *)
Lemma jsmap_forall_delete (P : V -> Prop) m k :
  Forall (fun kv => P (snd kv)) m -> Forall (fun kv => P (snd kv)) (JsMap.delete m k).
Proof.
  induction 1 as [|[k' v'] m Hx Hm IH]; simpl; auto.
  destruct (String.eqb k k'); auto.
Qed.

Lemma jsmap_forall_set (P : V -> Prop) m k v :
  Forall (fun kv => P (snd kv)) m -> P v -> Forall (fun kv => P (snd kv)) (JsMap.set m k v).
Proof.
  intros Hm Hv. induction Hm as [|[k' v'] m Hx Hm IH]; simpl.
  - constructor; auto.
  - destruct (String.eqb k k'); constructor; auto.
Qed.
End JsMapFacts.

(** ** Facts about the cache methods *)
Section CacheFacts.
Import SearchCache.
Local Open Scope Z_scope.
Variable T : Type.
Implicit Types (c : SearchCache T) (key : string) (now : Z) (v : T).

Lemma get_missing c now key :
  JsMap.get (cache c) key = None -> get c now key = (None, c).
Proof. unfold get. now intros ->. Qed.

Lemma get_expired c now key entry :
  JsMap.get (cache c) key = Some entry -> expiresAt entry < now ->
  get c now key = (None, with_cache c (JsMap.delete (cache c) key)).
Proof.
  unfold get. intros -> Hlt.
  destruct (Z.gtb_spec now (expiresAt entry)); [reflexivity | lia].
Qed.

Lemma get_live c now key entry :
  JsMap.get (cache c) key = Some entry -> now <= expiresAt entry ->
  get c now key =
    (Some (value entry),
     with_cache c (JsMap.set (JsMap.delete (cache c) key) key entry)).
Proof.
  unfold get. intros -> Hle.
  destruct (Z.gtb_spec now (expiresAt entry)); [lia | reflexivity].
Qed.

(** [set] stores the entry it builds under its key. *)
Lemma set_stores_entry c now key v ttl :
  JsMap.get (cache (set c now key v ttl)) key =
    Some {| value := v;
            timestamp := now;
            expiresAt := now + nullish ttl (defaultTtlMs c) |}.
Proof. unfold set. simpl. apply jsmap_get_set_same. Qed.

Lemma run_gets_missing c key (times : list Z) :
  JsMap.get (cache c) key = None ->
  run c (List.map (fun t => OpGet t key) times) = c.
Proof.
  intros H. induction times as [|t times IH]; simpl; auto.
  now rewrite (get_missing c t key H).
Qed.

(** No method changes the configuration. *)
Lemma step_config c (op : Op T) :
  maxSize (step c op) = maxSize c /\ defaultTtlMs (step c op) = defaultTtlMs c.
Proof.
  destruct op as [now key|now key v ttl|now key|key|]; simpl; auto.
  - unfold get. destruct (JsMap.get (cache c) key); [|auto].
    destruct (now >? _); auto.
  - unfold has, get. destruct (JsMap.get (cache c) key); [|auto].
    destruct (now >? _); auto.
Qed.

Lemma run_config (ops : list (Op T)) c :
  maxSize (run c ops) = maxSize c /\ defaultTtlMs (run c ops) = defaultTtlMs c.
Proof.
  revert c. induction ops as [|op ops IH]; intros c; simpl; auto.
  destruct (IH (step c op)) as [-> ->]. apply step_config.
Qed.

(** The map after [get] (and so after [has]) in terms of the map before. *)
Lemma cache_after_get c now key :
  cache (snd (get c now key)) = cache c
  \/ cache (snd (get c now key)) = JsMap.delete (cache c) key
  \/ exists entry, JsMap.get (cache c) key = Some entry /\
       cache (snd (get c now key)) = JsMap.set (JsMap.delete (cache c) key) key entry.
Proof.
  unfold get. destruct (JsMap.get (cache c) key) as [entry|] eqn:E; [|now left].
  destruct (now >? expiresAt entry); simpl; [now right; left|].
  right; right. now exists entry.
Qed.

Lemma snd_has c now key : snd (has c now key) = snd (get c now key).
Proof. unfold has. now destruct (get c now key). Qed.

Lemma size_after_get c now key : size (snd (get c now key)) <= size c.
Proof.
  unfold size, getStats; simpl.
  destruct (cache_after_get c now key) as [->|[->|(entry & E & ->)]].
  - lia.
  - pose proof (jsmap_size_delete_le (cache c) key). lia.
  - assert (Hp : JsMap.get (cache c) key <> None) by congruence.
    pose proof (jsmap_size_delete_lt _ _ Hp).
    pose proof (jsmap_size_set_le (JsMap.delete (cache c) key) key entry). lia.
Qed.

(** *** The capacity bound, for a positive capacity and non-empty keys *)

Lemma evict_makes_room c :
  1 <= maxSize c -> no_empty_key c -> size c <= maxSize c ->
  Z.of_nat (JsMap.size (evict c)) < maxSize c.
Proof.
  unfold size, getStats, no_empty_key, evict; simpl. intros Hpos Hne Hsz.
  destruct (Z.geb_spec (Z.of_nat (JsMap.size (cache c))) (maxSize c)) as [Hge|]; [|lia].
  destruct (cache c) as [|[k e] m] eqn:E; simpl in *; [lia|].
  destruct k as [|a k]; [tauto|]. cbn [truthy].
  simpl. rewrite Ascii.eqb_refl, String.eqb_refl.
  pose proof (jsmap_size_delete_le m (String a k)). unfold JsMap.size in *. lia.
Qed.

Lemma evict_keys c k : In k (JsMap.keys (evict c)) -> In k (JsMap.keys (cache c)).
Proof.
  unfold evict. destruct (_ >=? _); auto.
  destruct (JsMap.first_key (cache c)) as [k0|]; simpl; auto.
  destruct k0; auto. intros H. now apply jsmap_keys_delete in H.
Qed.

Lemma step_capacity c (op : Op T) :
  1 <= maxSize c -> set_key_nonempty op ->
  no_empty_key c /\ size c <= maxSize c ->
  no_empty_key (step c op) /\ size (step c op) <= maxSize (step c op).
Proof.
  intros Hpos Hop [Hne Hsz].
  destruct (step_config c op) as [-> _].
  assert (Hget : forall now key, no_empty_key (snd (get c now key))
                                 /\ size (snd (get c now key)) <= maxSize c).
  { intros now key. split; [|pose proof (size_after_get c now key); lia].
    unfold no_empty_key in *.
    destruct (cache_after_get c now key) as [->|[->|(entry & E & ->)]]; auto.
    - rewrite jsmap_keys_delete. tauto.
    - rewrite jsmap_keys_set, jsmap_keys_delete. intros [[? ?]|Hk]; auto.
      apply Hne, jsmap_in_keys_get. congruence. }
  destruct op as [now key|now key v ttl|now key|key|]; simpl in *.
  - apply Hget.
  - pose proof (evict_makes_room Hpos Hne Hsz) as Hroom. split.
    + unfold no_empty_key in *. simpl. rewrite jsmap_keys_set.
      intros [H|H]; [apply evict_keys in H; auto | congruence].
    + unfold size, getStats. simpl.
      pose proof (jsmap_size_set_le (evict c) key
        {| value := v; timestamp := now;
           expiresAt := now + nullish ttl (defaultTtlMs c) |}). lia.
  - rewrite snd_has. apply Hget.
  - split.
    + unfold no_empty_key in *. simpl. rewrite jsmap_keys_delete. tauto.
    + unfold size, getStats in *. simpl in *.
      pose proof (jsmap_size_delete_le (cache c) key). lia.
  - split; [unfold no_empty_key; simpl; tauto|].
    unfold size, getStats; simpl. lia.
Qed.

(** With a capacity of at least one and no [set] on the empty key, the
    cache never holds more entries than its capacity, after every call of
    every sequence of calls. *)
Theorem capacity_bound_nonempty_keys (ops : list (Op T)) c :
  1 <= maxSize c -> Forall set_key_nonempty ops ->
  no_empty_key c -> size c <= maxSize c ->
  size (run c ops) <= maxSize (run c ops).
Proof.
  intros Hpos Hops. revert c Hpos.
  induction Hops as [|op ops Hop Hops IH]; intros c Hpos Hne Hsz; simpl; auto.
  destruct (step_capacity op Hpos Hop (conj Hne Hsz)) as [Hne' Hsz'].
  apply IH; auto. now destruct (step_config c op) as [-> _].
Qed.

(** *** [set] on a key that is already present *)

(** Below capacity the key keeps its position in the recency order. *)
Lemma set_present_below_capacity c now key v ttl :
  JsMap.get (cache c) key <> None -> size c < maxSize c ->
  JsMap.keys (cache (set c now key v ttl)) = JsMap.keys (cache c).
Proof.
  intros Hp Hlt. unfold set, evict, size, getStats in *. simpl in *.
  destruct (Z.geb_spec (Z.of_nat (JsMap.size (cache c))) (maxSize c)); [lia|].
  now apply jsmap_keys_set_present.
Qed.

(** At capacity, with a non-empty oldest key other than [key], the oldest
    entry is evicted although no entry is added, and [key] keeps its
    position among the entries that remain. *)
Theorem set_present_at_capacity c now key v ttl oldest :
  JsMap.get (cache c) key <> None ->
  size c >= maxSize c ->
  JsMap.first_key (cache c) = Some oldest ->
  oldest <> EmptyString -> oldest <> key ->
  JsMap.get (cache (set c now key v ttl)) oldest = None /\
  JsMap.keys (cache (set c now key v ttl)) = JsMap.keys (JsMap.delete (cache c) oldest) /\
  size (set c now key v ttl) < size c.
Proof.
  intros Hp Hge Hfirst Hne Hkey.
  assert (Hev : evict c = JsMap.delete (cache c) oldest).
  { unfold evict, size, getStats in *. simpl in Hge.
    destruct (Z.geb_spec (Z.of_nat (JsMap.size (cache c))) (maxSize c)); [|lia].
    rewrite Hfirst. destruct oldest; [congruence | reflexivity]. }
  assert (Hp' : JsMap.get (JsMap.delete (cache c) oldest) key <> None)
    by now rewrite jsmap_get_delete_other.
  unfold set, size, getStats. simpl. rewrite Hev.
  split; [|split].
  - rewrite jsmap_get_set_other by congruence. apply jsmap_get_delete_same.
  - now apply jsmap_keys_set_present.
  - pose proof (jsmap_size_delete_lt _ _ (jsmap_get_first_key _ Hfirst)) as Hlt.
    rewrite jsmap_size_set_present by exact Hp'. lia.
Qed.

(** *** Expiry never precedes creation, for non-negative TTLs *)

Lemma evict_entries_ok c : entries_ok c -> Forall (fun kv => entry_ok (snd kv)) (evict c).
Proof.
  unfold entries_ok, evict. intros H.
  destruct (_ >=? _); auto.
  destruct (JsMap.first_key (cache c)) as [k0|]; simpl; auto.
  destruct k0; auto. now apply jsmap_forall_delete.
Qed.

Lemma get_entries_ok c now key : entries_ok c -> entries_ok (snd (get c now key)).
Proof.
  unfold entries_ok. intros H.
  destruct (cache_after_get c now key) as [->|[->|(entry & E & ->)]]; auto.
  - now apply jsmap_forall_delete.
  - apply jsmap_forall_set; [now apply jsmap_forall_delete|].
    apply jsmap_get_in in E.
    rewrite Forall_forall in H. apply (H _ E).
Qed.

Lemma step_entries_ok c (op : Op T) :
  ttl_nonneg (defaultTtlMs c) op -> entries_ok c -> entries_ok (step c op).
Proof.
  intros Hop H.
  destruct op as [now key|now key v ttl|now key|key|]; simpl in *.
  - now apply get_entries_ok.
  - unfold entries_ok; simpl. apply jsmap_forall_set; [now apply evict_entries_ok|].
    unfold entry_ok; simpl. destruct ttl; simpl; lia.
  - rewrite snd_has. now apply get_entries_ok.
  - unfold entries_ok; simpl. now apply jsmap_forall_delete.
  - constructor.
Qed.

Lemma run_entries_ok (ops : list (Op T)) c :
  Forall (ttl_nonneg (defaultTtlMs c)) ops -> entries_ok c -> entries_ok (run c ops).
Proof.
  revert c. induction ops as [|op ops IH]; intros c Hops H; simpl; auto.
  inversion Hops as [|? ? Hop Hops']; subst.
  apply IH; [|now apply step_entries_ok].
  now destruct (step_config c op) as [_ ->].
Qed.

(** Every reachable state is a well-formed [Map]: its keys are unique. *)
Lemma step_wf c (op : Op T) : JsMap.wf (cache c) -> JsMap.wf (cache (step c op)).
Proof.
  intros H.
  assert (Hget : forall now key, JsMap.wf (cache (snd (get c now key)))).
  { intros now key.
    destruct (cache_after_get c now key) as [->|[->|(entry & E & ->)]]; auto.
    - now apply jsmap_wf_delete.
    - now apply jsmap_wf_set, jsmap_wf_delete. }
  destruct op as [now key|now key v ttl|now key|key|]; simpl; auto.
  - apply jsmap_wf_set. unfold evict.
    destruct (_ >=? _); auto.
    destruct (JsMap.first_key (cache c)) as [k0|]; simpl; auto.
    destruct k0; auto. now apply jsmap_wf_delete.
  - rewrite snd_has. apply Hget.
  - now apply jsmap_wf_delete.
  - constructor.
Qed.

Theorem reachable_wf c : reachable c -> JsMap.wf (cache c).
Proof.
  intros (options & ops & H). unfold program, constructor in H.
  injection H as <-.
  set (c0 := Build_SearchCache _ _ _).
  assert (H0 : JsMap.wf (cache c0)) by constructor.
  clearbody c0. revert c0 H0.
  induction ops as [|op ops IH]; intros c0 H0; simpl; auto.
  apply IH. now apply step_wf.
Qed.
End CacheFacts.

(** ** Facts about [toLowerCase] and [trim] *)
Section StringFacts.
Import JsString.
Local Open Scope string_scope.


Lemma isUpper_lowered c :
  isUpper c = true -> isUpper (ascii_of_N (N_of_ascii c + 32)) = false.
Proof. each_code_unit c. Qed.

Lemma toLowerCase_app s t : toLowerCase (s ++ t) = toLowerCase s ++ toLowerCase t.
Proof. induction s as [|c s IH]; simpl; [reflexivity | now rewrite IH]. Qed.


Lemma trimStart_whitespace p : allWhiteSpace p = true -> trimStart p = "".
Proof.
  induction p as [|c p IH]; simpl; auto.
  intros [-> Hp]%andb_prop. auto.
Qed.






Lemma lowerChar_sameLetter a b : sameLetter a b -> lowerChar a = lowerChar b.
Proof.
  intros [c|c Hc|c Hc]; auto; unfold lowerChar;
    now rewrite Hc, (isUpper_lowered _ Hc).
Qed.

Lemma toLowerCase_sameUpToCase s t : sameUpToCase s t -> toLowerCase s = toLowerCase t.
Proof.
  induction 1 as [|a b s t Hab Hst IH]; simpl; auto.
  now rewrite (lowerChar_sameLetter Hab), IH.
Qed.

End StringFacts.

(** * The claims *)
Section Claims.
Import SearchCache.
Local Open Scope string_scope.
Local Open Scope Z_scope.

(** ** C1: the capacity bound *)

(** C1. The claim is that after every mutating call the number of entries
    is at most the capacity, in particular after each [set] of a sequence
    of [set] calls with distinct keys.  [set] evicts the oldest key only
    when that key is truthy, so an oldest entry keyed by the empty string
    is never evicted: with capacity 1, [set("", 1)] then [set("a", 2)]
    (distinct keys) leaves two entries. *)
Theorem C1_capacity_exceeded_after_empty_key :
  exists c : SearchCache Z,
    program (Some {| opt_maxSize := Some 1; opt_ttlMs := None |})
            [OpSet 0 "" 1 None; OpSet 1 "a" 2 None] = Returns c /\
    NoDup [""; "a"] /\
    JsMap.keys (cache c) = [""; "a"] /\
    size c = 2 /\ maxSize c = 1 /\ ~ size c <= maxSize c.
Proof.
  eexists. split; [reflexivity|].
  split; [repeat constructor; simpl; intuition discriminate|].
  cbn. repeat split; lia.
Qed.

(** ** C2: [set] on a key that is already present *)

(** C2. The claim is that [set] on a present key moves that key to the
    most-recently-used position and evicts no other entry.  With capacity
    3 and keys a, b, c stored in that order, [set("b", 5)] evicts "a" (the
    cache is at capacity, so the eviction step runs before the key is
    looked at) and leaves "b" where it was, before "c". *)
Theorem C2_overwrite_evicts_and_keeps_position :
  exists c c' : SearchCache Z,
    program (Some {| opt_maxSize := Some 3; opt_ttlMs := None |})
            [OpSet 0 "a" 1 None; OpSet 1 "b" 2 None; OpSet 2 "c" 3 None] = Returns c /\
    JsMap.keys (cache c) = ["a"; "b"; "c"] /\
    c' = set c 3 "b" 5 None /\
    JsMap.keys (cache c') = ["b"; "c"] /\
    JsMap.get (cache c') "a" = None /\
    fst (get c' 4 "b") = Some 5.
Proof.
  do 2 eexists. split; [reflexivity|].
  split; [reflexivity|]. split; [reflexivity|].
  cbn. auto.
Qed.

(** ** C3: the TTL that [set] uses *)

(** C3 as stated fails: [set("k", v, 0)] at time 100 on a cache with the
    default TTL of 300000 stores [expiresAt = 100], not [100 + 300000]. *)
Lemma C3_zero_ttl_counterexample :
  exists (c : SearchCache unit) (e : CacheEntry unit),
    constructor unit None = Returns c /\
    JsMap.get (cache (set c 100 "k" tt (Some 0))) "k" = Some e /\
    expiresAt e = 100 /\
    expiresAt e <> 100 + claimedEffectiveTtl (Some 0) (defaultTtlMs c).
Proof.
  do 2 eexists. split; [reflexivity|]. split; [reflexivity|].
  split; [reflexivity | discriminate].
Qed.

(** C3, amended.  The entry that [set(key, value, ttl)] stores expires at
    [now + ttl] whenever a [ttl] is supplied, zero and negative values
    included, and at [now + defaultTtl] only when [ttl] is absent. *)
Theorem C3_effective_ttl (T : Type) (c : SearchCache T) now key v ttl :
  JsMap.get (cache (set c now key v ttl)) key =
    Some {| value := v;
            timestamp := now;
            expiresAt := now + match ttl with
                               | Some t => t
                               | None => defaultTtlMs c
                               end |}.
Proof.
  rewrite set_stores_entry. now destruct ttl.
Qed.

(** ** C4: expiry against creation time *)

(** C4 as stated fails: a [set] with a negative TTL stores an entry that
    expires before it was created. *)
Lemma C4_negative_ttl_counterexample :
  exists (c : SearchCache unit) (e : CacheEntry unit),
    reachable c /\
    program None [OpSet 100 "k" tt (Some (-5))] = Returns c /\
    JsMap.get (cache c) "k" = Some e /\
    timestamp e = 100 /\ expiresAt e = 95 /\ ~ timestamp e <= expiresAt e.
Proof.
  do 2 eexists. split.
  { exists None, [OpSet 100 "k" tt (Some (-5))]. reflexivity. }
  split; [reflexivity|]. split; [reflexivity|].
  cbn. repeat split; lia.
Qed.

(** C4, amended.  In every state reached by calls in which each [set] uses
    a non-negative TTL (the supplied one, or the default when none is
    supplied), every stored entry has [expiresAt >= timestamp]. *)
Theorem C4_expiry_not_before_creation (T : Type) options (ops : list (Op T)) c :
  program options ops = Returns c ->
  Forall (ttl_nonneg (defaultTtlMs c)) ops ->
  forall key e, JsMap.get (cache c) key = Some e -> timestamp e <= expiresAt e.
Proof.
  unfold program, constructor. intros [= <-] Hops key e He.
  set (c0 := Build_SearchCache _ _ _) in *.
  assert (H : entries_ok (run c0 ops)).
  { apply run_entries_ok; [|constructor].
    now destruct (run_config ops c0) as [_ <-]. }
  apply jsmap_get_in in He.
  unfold entries_ok in H. rewrite Forall_forall in H. apply (H _ He).
Qed.

Lemma C4_expiry_not_before_creation_witness :
  Forall (ttl_nonneg (T:=Z) 1000) [OpSet 5 "a" 1 None; OpGet 6 "a"; OpSet 7 "b" 2 (Some 0)] /\
  forall key e,
    JsMap.get (cache (run {| cache := []; maxSize := 2; defaultTtlMs := 1000 |}
                          [OpSet 5 "a" 1 None; OpGet 6 "a"; OpSet 7 "b" 2 (Some 0)])) key = Some e ->
    timestamp e <= expiresAt e.
Proof.
  split.
  - repeat constructor; simpl; lia.
  - apply (@C4_expiry_not_before_creation Z
             (Some {| opt_maxSize := Some 2; opt_ttlMs := Some 1000 |})
             [OpSet 5 "a" 1 None; OpGet 6 "a"; OpSet 7 "b" 2 (Some 0)]).
    + reflexivity.
    + repeat constructor; simpl; lia.
Defined.

(** ** C5: [get] on a missing or expired key *)

(** C5.  [get] returns absent for a key with no entry and leaves the cache
    as it was; for an entry whose expiry is strictly before the current
    time it deletes the entry and returns absent, whatever the capacity;
    an entry set with TTL 1 is absent two time units later; and after any
    number of [get] calls on an absent key, one more [get] still returns
    absent with the cache, and so its size, unchanged. *)
Theorem C5_get_missing_or_expired (T : Type) (c : SearchCache T) key :
  (forall now, JsMap.get (cache c) key = None -> get c now key = (None, c))
  /\ (forall now entry,
        JsMap.get (cache c) key = Some entry -> expiresAt entry < now ->
        fst (get c now key) = None /\
        cache (snd (get c now key)) = JsMap.delete (cache c) key /\
        JsMap.get (cache (snd (get c now key))) key = None)
  /\ (forall now v, fst (get (set c now key v (Some 1)) (now + 2) key) = None)
  /\ (forall times now,
        JsMap.get (cache c) key = None ->
        get (run c (List.map (fun t => OpGet t key) times)) now key = (None, c) /\
        size (run c (List.map (fun t => OpGet t key) times)) = size c).
Proof.
  split; [|split; [|split]].
  - intros now. apply get_missing.
  - intros now entry He Hlt.
    rewrite (get_expired c key He Hlt). simpl.
    repeat split. apply jsmap_get_delete_same.
  - intros now v.
    erewrite get_expired; [reflexivity | apply set_stores_entry | simpl; lia].
  - intros times now H.
    rewrite (run_gets_missing c key times H).
    split; [now apply get_missing | reflexivity].
Qed.

Lemma C5_get_missing_or_expired_witness :
  let c : SearchCache Z :=
    {| cache := [("a", {| value := 7; timestamp := 0; expiresAt := 10 |})];
       maxSize := 2; defaultTtlMs := 1000 |} in
  get c 11 "b" = (None, c) /\
  fst (get c 11 "a") = None /\
  JsMap.get (cache (snd (get c 11 "a"))) "a" = None /\
  get (run c [OpGet 1 "b"; OpGet 2 "b"]) 3 "b" = (None, c).
Proof.
  intros c.
  destruct (C5_get_missing_or_expired c "b") as (Hmiss & _ & _ & Hrep).
  destruct (C5_get_missing_or_expired c "a") as (_ & Hexp & _ & _).
  destruct (Hexp 11 _ eq_refl ltac:(simpl; lia)) as (Hnone & _ & Hgone).
  destruct (Hrep [1; 2] 3 eq_refl) as [Hagain _].
  split; [apply Hmiss; reflexivity|].
  split; [exact Hnone|]. split; [exact Hgone | exact Hagain].
Defined.

(** ** C6: the end-to-end LRU scenario *)

(** C6.  Capacity 2, TTL 1000 ms: after [set("a",1)] and [set("b",2)],
    [get("a")] returns 1 and moves "a" behind "b"; [set("c",3)] then evicts
    exactly "b"; afterwards [get("b")] is absent, [get("a")] is 1 and
    [get("c")] is 3, every read being within the TTL of what it reads. *)
Theorem C6_lru_scenario (t1 t2 t3 t4 t5 t6 t7 : Z) (c0 : SearchCache Z) :
  constructor Z (Some {| opt_maxSize := Some 2; opt_ttlMs := Some 1000 |}) = Returns c0 ->
  t3 <= t1 + 1000 -> t6 <= t1 + 1000 -> t7 <= t4 + 1000 ->
  let c2 := set (set c0 t1 "a" 1 None) t2 "b" 2 None in
  let c3 := snd (get c2 t3 "a") in
  let c4 := set c3 t4 "c" 3 None in
  let c5 := snd (get c4 t5 "b") in
  let c6 := snd (get c5 t6 "a") in
  JsMap.keys (cache c2) = ["a"; "b"] /\
  fst (get c2 t3 "a") = Some 1 /\
  JsMap.keys (cache c3) = ["b"; "a"] /\
  JsMap.keys (cache c4) = ["a"; "c"] /\
  fst (get c4 t5 "b") = None /\
  fst (get c5 t6 "a") = Some 1 /\
  fst (get c6 t7 "c") = Some 3.
Proof.
  intros [= <-] H3 H6 H7.
  assert (E3 : (t3 >? t1 + 1000) = false) by (rewrite Z.gtb_ltb; apply Z.ltb_ge; lia).
  assert (E6 : (t6 >? t1 + 1000) = false) by (rewrite Z.gtb_ltb; apply Z.ltb_ge; lia).
  assert (E7 : (t7 >? t4 + 1000) = false) by (rewrite Z.gtb_ltb; apply Z.ltb_ge; lia).
  cbv zeta.
  cbn -[Z.add Z.gtb]. rewrite E3.
  cbn -[Z.add Z.gtb]. rewrite E6.
  cbn -[Z.add Z.gtb]. rewrite E7.
  cbn -[Z.add Z.gtb]. repeat split.
Qed.

Lemma C6_lru_scenario_witness :
  let c0 : SearchCache Z := {| cache := []; maxSize := 2; defaultTtlMs := 1000 |} in
  let c2 := set (set c0 0 "a" 1 None) 10 "b" 2 None in
  let c3 := snd (get c2 20 "a") in
  let c4 := set c3 30 "c" 3 None in
  let c5 := snd (get c4 40 "b") in
  let c6 := snd (get c5 50 "a") in
  JsMap.keys (cache c2) = ["a"; "b"] /\
  fst (get c2 20 "a") = Some 1 /\
  JsMap.keys (cache c3) = ["b"; "a"] /\
  JsMap.keys (cache c4) = ["a"; "c"] /\
  fst (get c4 40 "b") = None /\
  fst (get c5 50 "a") = Some 1 /\
  fst (get c6 60 "c") = Some 3.
Proof.
  apply (@C6_lru_scenario 0 10 20 30 40 50 60); [reflexivity | lia | lia | lia].
Defined.

(** ** C7: [has] *)

(** C7.  On every state, [has(key)] is true exactly when [get(key)]
    returns a value, it leaves the cache in the state that [get(key)]
    leaves it in, and on a key whose entry has expired it is false and
    removes the entry. *)
Theorem C7_has_is_get_defined (T : Type) (c : SearchCache T) now key :
  (fst (has c now key) = true <-> exists v, fst (get c now key) = Some v)
  /\ snd (has c now key) = snd (get c now key)
  /\ (forall entry,
        JsMap.get (cache c) key = Some entry -> expiresAt entry < now ->
        fst (has c now key) = false /\
        cache (snd (has c now key)) = JsMap.delete (cache c) key /\
        JsMap.get (cache (snd (has c now key))) key = None).
Proof.
  split; [|split].
  - unfold has. destruct (get c now key) as [[v|] c']; simpl.
    + split; [now exists v | reflexivity].
    + split; [discriminate | intros [v Hv]; discriminate].
  - apply snd_has.
  - intros entry He Hlt. unfold has.
    rewrite (get_expired c key He Hlt). simpl.
    repeat split. apply jsmap_get_delete_same.
Qed.

Lemma C7_has_is_get_defined_witness :
  let c : SearchCache Z :=
    {| cache := [("a", {| value := 7; timestamp := 0; expiresAt := 10 |});
                 ("b", {| value := 8; timestamp := 5; expiresAt := 15 |})];
       maxSize := 2; defaultTtlMs := 10 |} in
  fst (has c 11 "a") = false /\
  JsMap.keys (cache (snd (has c 11 "a"))) = ["b"] /\
  fst (has c 11 "b") = true.
Proof.
  intros c.
  destruct (C7_has_is_get_defined c 11 "a") as (_ & _ & Hexp).
  destruct (Hexp _ eq_refl ltac:(simpl; lia)) as (Hf & Hdel & _).
  destruct (C7_has_is_get_defined c 11 "b") as (Hiff & _ & _).
  split; [exact Hf|]. split; [now rewrite Hdel|].
  apply Hiff. now exists 8.
Defined.

(** ** C9: the constructor *)

(** C9 as stated fails: constructing with capacity 0 and TTL -1 does not
    throw; it returns an instance that holds those values. *)
Lemma C9_invalid_options_counterexample :
  constructor unit (Some {| opt_maxSize := Some 0; opt_ttlMs := Some (-1) |})
    = Returns {| cache := []; maxSize := 0; defaultTtlMs := -1 |}
  /\ forall message,
       constructor unit (Some {| opt_maxSize := Some 0; opt_ttlMs := Some (-1) |})
         <> Throws message.
Proof. split; [reflexivity | discriminate]. Qed.

(** C9, amended.  The constructor validates nothing and never fails: for
    every options value, a capacity <= 0 or a negative TTL included, it
    returns an instance with an empty map that holds the given capacity
    (100 when absent) and the given TTL (300000 ms when absent); and that
    instance is usable: an entry that [set] stores is returned by [get] at
    any time not after its expiry. *)
Theorem C9_constructor_never_fails (T : Type) (options : option Options) :
  exists c : SearchCache T,
    constructor T options = Returns c /\
    cache c = [] /\
    maxSize c = match options with
                | Some {| opt_maxSize := Some n |} => n
                | _ => 100
                end /\
    defaultTtlMs c = match options with
                     | Some {| opt_ttlMs := Some ttl |} => ttl
                     | _ => 300000
                     end /\
    forall now key v ttl now',
      now' <= now + match ttl with Some t => t | None => defaultTtlMs c end ->
      fst (get (set c now key v ttl) now' key) = Some v.
Proof.
  eexists. split; [reflexivity|]. simpl.
  split; [reflexivity|].
  split; [destruct options as [[[n|] ttl]|]; reflexivity|].
  split; [destruct options as [[n [ttl|]]|]; reflexivity|].
  intros now key v ttl now' Hle.
  rewrite (get_live _ _ (set_stores_entry _ now key v ttl)); [reflexivity|].
  simpl. now destruct ttl.
Qed.

(** ** C10: [set] when the oldest key is the empty string *)

(** C10 as stated fails on a state that already holds more entries than
    the capacity: with capacity 1 and keys "", "a" stored (size 2 >= 1,
    oldest key ""), [set] of the new key "b" gives size 3, not
    capacity + 1 = 2. *)
Lemma C10_over_capacity_counterexample :
  exists c : SearchCache Z,
    program (Some {| opt_maxSize := Some 1; opt_ttlMs := None |})
            [OpSet 0 "" 1 None; OpSet 1 "a" 2 None] = Returns c /\
    size c >= maxSize c /\
    JsMap.first_key (cache c) = Some "" /\
    JsMap.get (cache c) "b" = None /\
    size (set c 2 "b" 3 None) = 3 /\
    size (set c 2 "b" 3 None) <> maxSize c + 1.
Proof.
  eexists. split; [reflexivity|]. cbn.
  repeat split; try discriminate; lia.
Qed.

(** C10, amended.  On a state with [size >= maxSize] whose oldest key is
    the empty string, [set] with a new key evicts nothing and appends the
    new entry at the most-recently-used end, so the size grows by one; it
    is capacity + 1 when the cache held exactly capacity entries. *)
Theorem C10_empty_oldest_key_not_evicted (T : Type) (c : SearchCache T) now key v ttl :
  size c >= maxSize c ->
  JsMap.first_key (cache c) = Some "" ->
  JsMap.get (cache c) key = None ->
  cache (set c now key v ttl) =
    (cache c ++ [(key, {| value := v; timestamp := now;
                          expiresAt := now + match ttl with
                                             | Some t => t
                                             | None => defaultTtlMs c
                                             end |})])%list
  /\ size (set c now key v ttl) = size c + 1
  /\ (size c = maxSize c -> size (set c now key v ttl) = maxSize c + 1).
Proof.
  intros Hge Hfirst Hnew.
  assert (Hev : evict c = cache c).
  { unfold evict. rewrite Hfirst. simpl. now destruct (_ >=? _). }
  assert (Hc : cache (set c now key v ttl) =
               (cache c ++ [(key, {| value := v; timestamp := now;
                                     expiresAt := now + nullish ttl (defaultTtlMs c) |})])%list).
  { unfold set. simpl. rewrite Hev. now apply jsmap_set_absent. }
  assert (Hs : size (set c now key v ttl) = size c + 1).
  { change (size (set c now key v ttl))
      with (Z.of_nat (JsMap.size (cache (set c now key v ttl)))).
    rewrite Hc. unfold size, getStats, JsMap.size.
    rewrite length_app. simpl. lia. }
  split; [|split; [exact Hs | lia]].
  rewrite Hc. now destruct ttl.
Qed.

Lemma C10_empty_oldest_key_not_evicted_witness :
  let c : SearchCache Z :=
    {| cache := [("", {| value := 1; timestamp := 0; expiresAt := 300000 |})];
       maxSize := 1; defaultTtlMs := 300000 |} in
  size c >= maxSize c /\
  JsMap.keys (cache (set c 1 "a" 2 None)) = [""; "a"] /\
  size (set c 1 "a" 2 None) = maxSize c + 1.
Proof.
  intros c.
  assert (Hge : size c >= maxSize c) by (cbn; lia).
  destruct (@C10_empty_oldest_key_not_evicted Z c 1 "a" 2 None Hge eq_refl eq_refl)
    as (Hc & _ & Hcap).
  split; [exact Hge|]. split; [now rewrite Hc|].
  apply Hcap. reflexivity.
Defined.

(** ** The bound and the overwrite on concrete caches *)

Lemma capacity_bound_nonempty_keys_witness :
  let c : SearchCache Z := {| cache := []; maxSize := 2; defaultTtlMs := 1000 |} in
  let ops := [OpSet 0 "a" 1 None; OpSet 1 "b" 2 None; OpGet 2 "a"; OpSet 3 "c" 3 None] in
  Forall set_key_nonempty ops /\ size (run c ops) <= maxSize (run c ops).
Proof.
  intros c ops.
  assert (Hops : Forall set_key_nonempty ops) by (repeat constructor; discriminate).
  split; [exact Hops|].
  apply (@capacity_bound_nonempty_keys Z ops c);
    [unfold c; simpl; lia | exact Hops | | unfold c; cbn; lia].
  unfold no_empty_key, c. simpl. tauto.
Defined.

Lemma set_present_at_capacity_witness :
  let entry n := {| value := n; timestamp := 0; expiresAt := 1000 |} in
  let c : SearchCache Z :=
    {| cache := [("a", entry 1); ("b", entry 2); ("c", entry 3)];
       maxSize := 3; defaultTtlMs := 1000 |} in
  JsMap.get (cache (set c 3 "b" 5 None)) "a" = None /\
  JsMap.keys (cache (set c 3 "b" 5 None)) = ["b"; "c"].
Proof.
  intros entry c.
  destruct (@set_present_at_capacity Z c 3 "b" 5 None "a") as (Hgone & Hkeys & _).
  - discriminate.
  - cbn. lia.
  - reflexivity.
  - discriminate.
  - discriminate.
  - split; [exact Hgone | exact Hkeys].
Defined.

End Claims.

(** * Further properties of the cache *)

(** ** More facts about [Map] *)
Section JsMapOrderFacts.
Variable V : Type.
Implicit Types (m : JsMap.t V) (k : string) (v : V).

Lemma jsmap_keys_app m1 m2 : JsMap.keys (m1 ++ m2) = JsMap.keys m1 ++ JsMap.keys m2.
Proof. unfold JsMap.keys. apply map_app. Qed.

Lemma jsmap_get_not_in m k : ~ In k (JsMap.keys m) -> JsMap.get m k = None.
Proof.
  intros H. destruct (JsMap.get m k) eqn:E; auto.
  exfalso. apply H, jsmap_in_keys_get. congruence.
Qed.

(** Deleting the first key of a well-formed map leaves its tail. *)
Lemma jsmap_delete_first m k v : JsMap.wf ((k, v) :: m) -> JsMap.delete ((k, v) :: m) k = m.
Proof.
  unfold JsMap.wf. simpl. intros H. inversion H as [|? ? Hnin _]; subst.
  rewrite String.eqb_refl. apply jsmap_delete_absent. now apply jsmap_get_not_in.
Qed.

(** In a well-formed map, [delete] of a present key removes one entry. *)
Lemma jsmap_size_delete_present m k :
  JsMap.wf m -> JsMap.get m k <> None -> S (JsMap.size (JsMap.delete m k)) = JsMap.size m.
Proof.
  unfold JsMap.wf, JsMap.size.
  induction m as [|[k' v'] m IH]; simpl; [congruence|].
  intros Hwf Hp. inversion Hwf as [|? ? Hnin Hnd]; subst.
  destruct (String.eqb_spec k k') as [->|Hk].
  - now rewrite jsmap_delete_absent by now apply jsmap_get_not_in.
  - simpl. now rewrite IH.
Qed.

(** [delete] keeps the other keys in their order. *)
Lemma jsmap_keys_delete_filter m k :
  JsMap.keys (JsMap.delete m k) = List.filter (fun k' => negb (String.eqb k k')) (JsMap.keys m).
Proof.
  induction m as [|[k' v'] m IH]; simpl; auto.
  destruct (String.eqb k k'); simpl; now rewrite IH.
Qed.
End JsMapOrderFacts.

(** ** Reads, writes and deletions *)
Section CacheAccessFacts.
Import SearchCache.
Local Open Scope Z_scope.
Variable T : Type.
Implicit Types (c : SearchCache T) (key : string) (now : Z) (v : T).

Lemma with_cache_same c : with_cache c (cache c) = c.
Proof. now destruct c. Qed.

(** [get] returns a value exactly when the key has an entry that has not
    expired, and the value is that entry's: nothing expired and nothing
    stored under another key is ever returned. *)
Theorem get_returns_live_entry c now key v :
  fst (get c now key) = Some v <->
  exists entry, JsMap.get (cache c) key = Some entry /\
                value entry = v /\ now <= expiresAt entry.
Proof.
  unfold get. destruct (JsMap.get (cache c) key) as [entry|] eqn:E.
  - destruct (Z.gtb_spec now (expiresAt entry)) as [Hgt|Hle]; simpl.
    + split; [discriminate|]. intros (e & [= <-] & _ & Hle). lia.
    + split.
      * intros [= <-]. exists entry. auto.
      * intros (e & [= <-] & <- & _). reflexivity.
  - simpl. split; [discriminate|]. intros (e & He & _). discriminate.
Qed.

(** A hit moves the entry, unchanged, to the most-recently-used end; the
    other entries keep their order and their values, and the size stays. *)
Theorem get_hit_promotes c now key entry :
  JsMap.get (cache c) key = Some entry -> now <= expiresAt entry ->
  fst (get c now key) = Some (value entry) /\
  cache (snd (get c now key)) = JsMap.delete (cache c) key ++ [(key, entry)] /\
  JsMap.keys (cache (snd (get c now key))) =
    List.filter (fun k' => negb (String.eqb key k')) (JsMap.keys (cache c)) ++ [key] /\
  (forall k', k' <> key ->
     JsMap.get (cache (snd (get c now key))) k' = JsMap.get (cache c) k') /\
  (JsMap.wf (cache c) -> size (snd (get c now key)) = size c).
Proof.
  intros He Hle. rewrite (get_live c key He Hle). simpl.
  assert (Hset : JsMap.set (JsMap.delete (cache c) key) key entry
                 = JsMap.delete (cache c) key ++ [(key, entry)])
    by apply jsmap_set_absent, jsmap_get_delete_same.
  rewrite Hset. repeat split.
  - now rewrite jsmap_keys_app, jsmap_keys_delete_filter.
  - intros k' Hk. rewrite <- Hset.
    rewrite jsmap_get_set_other, jsmap_get_delete_other by congruence. reflexivity.
  - intros Hwf. unfold size, getStats, JsMap.size. simpl.
    assert (Hp : JsMap.get (cache c) key <> None) by congruence.
    pose proof (@jsmap_size_delete_present _ (cache c) key Hwf Hp) as Hs. unfold JsMap.size in Hs.
    rewrite length_app. simpl. lia.
Qed.

(** What was [set] is what [get] returns until it expires.  When the two
    clock readings, the TTL in force (the one given, else the default) and
    the expiry [now + ttl] are safe integers, so that the sum of the
    doubles is the integer sum, a [get] at time [now'] after
    [set(key, v, ttl)] at time [now] returns [v] when [now'] is at most
    [now + ttl], and absent after that. *)
Theorem get_after_set c now key v ttl now' :
  safeInteger now ->
  safeInteger (match ttl with Some t => t | None => defaultTtlMs c end) ->
  safeInteger (now + match ttl with Some t => t | None => defaultTtlMs c end) ->
  safeInteger now' ->
  fst (get (set c now key v ttl) now' key) =
    if now' >? now + match ttl with Some t => t | None => defaultTtlMs c end
    then None else Some v.
Proof.
  (* The bounds are where the integer sum is the sum of the doubles. *)
  intros _ _ _ _.
  pose proof (set_stores_entry c now key v ttl) as Hs.
  replace (match ttl with Some t => t | None => defaultTtlMs c end)
    with (nullish ttl (defaultTtlMs c)) by now destruct ttl.
  destruct (Z.gtb_spec now' (now + nullish ttl (defaultTtlMs c))) as [Hgt|Hle].
  - now rewrite (get_expired _ _ Hs) by (simpl; lia).
  - now rewrite (get_live _ _ Hs) by (simpl; lia).
Qed.

(** [set] leaves every entry alone except the one under its key and, when
    it evicts, the oldest one. *)
Theorem set_preserves_other_entries c now key v ttl k' :
  k' <> key ->
  size c < maxSize c \/ JsMap.first_key (cache c) <> Some k' ->
  JsMap.get (cache (set c now key v ttl)) k' = JsMap.get (cache c) k'.
Proof.
  intros Hk Hor. unfold set. simpl.
  rewrite jsmap_get_set_other by congruence.
  unfold evict, size, getStats in *. simpl in Hor.
  destruct (Z.geb_spec (Z.of_nat (JsMap.size (cache c))) (maxSize c)) as [Hge|Hlt]; auto.
  destruct Hor as [Hlt|Hfirst]; [lia|].
  destruct (JsMap.first_key (cache c)) as [k0|]; simpl; auto.
  destruct k0 as [|a k0]; auto.
  apply jsmap_get_delete_other. congruence.
Qed.

(** The map after a [set] of a new key on a full, well-formed cache whose
    oldest key is not the empty string. *)
Lemma set_fresh_full c now key v ttl oldest e0 rest :
  JsMap.wf (cache c) ->
  cache c = (oldest, e0) :: rest ->
  oldest <> EmptyString ->
  size c >= maxSize c ->
  JsMap.get (cache c) key = None ->
  evict c = rest /\
  cache (set c now key v ttl) =
    rest ++ [(key, {| value := v; timestamp := now;
                      expiresAt := now + nullish ttl (defaultTtlMs c) |})].
Proof.
  intros Hwf Hc Hne Hge Hnew.
  assert (Hev : evict c = rest).
  { unfold evict, size, getStats in *. simpl in Hge.
    destruct (Z.geb_spec (Z.of_nat (JsMap.size (cache c))) (maxSize c)); [|lia].
    rewrite Hc in *. cbn [JsMap.first_key].
    destruct oldest as [|a o]; [congruence|]. cbn [truthy].
    now apply jsmap_delete_first. }
  split; [exact Hev|].
  assert (Hrest : JsMap.get rest key = None).
  { rewrite Hc in Hnew. simpl in Hnew.
    destruct (String.eqb key oldest); [congruence | assumption]. }
  unfold set. simpl. rewrite Hev. now apply jsmap_set_absent.
Qed.

(** The map after a [set] of a new key on a cache below capacity. *)
Lemma set_fresh_below c now key v ttl :
  size c < maxSize c ->
  JsMap.get (cache c) key = None ->
  cache (set c now key v ttl) =
    cache c ++ [(key, {| value := v; timestamp := now;
                         expiresAt := now + nullish ttl (defaultTtlMs c) |})].
Proof.
  intros Hlt Hnew. unfold set, evict, size, getStats in *. simpl in *.
  destruct (Z.geb_spec (Z.of_nat (JsMap.size (cache c))) (maxSize c)); [lia|].
  now apply jsmap_set_absent.
Qed.

(** A [set] of a new key on a full cache whose oldest key is not the empty
    string evicts exactly that oldest entry and appends the new one: the
    size is unchanged. *)
Theorem set_fresh_evicts_oldest c now key v ttl oldest e0 rest :
  JsMap.wf (cache c) ->
  cache c = (oldest, e0) :: rest ->
  oldest <> EmptyString ->
  size c >= maxSize c ->
  JsMap.get (cache c) key = None ->
  cache (set c now key v ttl) =
    rest ++ [(key, {| value := v; timestamp := now;
                      expiresAt := now + match ttl with
                                         | Some t => t
                                         | None => defaultTtlMs c
                                         end |})] /\
  JsMap.get (cache (set c now key v ttl)) oldest = None /\
  size (set c now key v ttl) = size c.
Proof.
  intros Hwf Hc Hne Hge Hnew.
  destruct (@set_fresh_full c now key v ttl oldest e0 rest Hwf Hc Hne Hge Hnew)
    as [Hev Hcache].
  assert (Hko : key <> oldest).
  { intros ->. rewrite Hc in Hnew. simpl in Hnew.
    now rewrite String.eqb_refl in Hnew. }
  split; [|split].
  - rewrite Hcache. now destruct ttl.
  - unfold set. simpl. rewrite Hev, jsmap_get_set_other by assumption.
    apply jsmap_get_not_in. unfold JsMap.wf in Hwf. rewrite Hc in Hwf.
    simpl in Hwf. now inversion Hwf.
  - change (size (set c now key v ttl))
      with (Z.of_nat (JsMap.size (cache (set c now key v ttl)))).
    rewrite Hcache. unfold size, getStats, JsMap.size. rewrite Hc, length_app.
    simpl. lia.
Qed.

(** [delete] reports whether the key had an entry, removes that entry and
    no other, and is a no-op on a key with no entry. *)
Theorem delete_removes_only_key c key :
  (fst (delete c key) = true <-> JsMap.get (cache c) key <> None) /\
  (forall now, get (snd (delete c key)) now key = (None, snd (delete c key))) /\
  (forall k', k' <> key ->
     JsMap.get (cache (snd (delete c key))) k' = JsMap.get (cache c) k') /\
  (JsMap.get (cache c) key = None -> snd (delete c key) = c) /\
  (JsMap.wf (cache c) -> JsMap.get (cache c) key <> None ->
     size (snd (delete c key)) = size c - 1).
Proof.
  unfold delete. simpl. repeat split.
  - unfold JsMap.has. destruct (JsMap.get (cache c) key); congruence.
  - unfold JsMap.has. destruct (JsMap.get (cache c) key); congruence.
  - intros now. apply get_missing. simpl. apply jsmap_get_delete_same.
  - intros k' Hk. apply jsmap_get_delete_other. congruence.
  - intros Habs. rewrite (jsmap_delete_absent _ _ Habs). apply with_cache_same.
  - intros Hwf Hp. unfold size, getStats. simpl.
    pose proof (@jsmap_size_delete_present _ (cache c) key Hwf Hp). lia.
Qed.
End CacheAccessFacts.

(** ** Insertion order and eviction *)
Section LastNFacts.
Variable A : Type.
Implicit Types (l a b : list A).

Lemma lastN_short n l : (List.length l <= n)%nat -> lastN n l = l.
Proof.
  intros H. unfold lastN.
  replace (List.length l - n)%nat with 0%nat by lia. reflexivity.
Qed.

Lemma lastN_length n l : (List.length (lastN n l) <= n)%nat.
Proof. unfold lastN. rewrite length_skipn. lia. Qed.

Lemma lastN_full n x l y : List.length (x :: l) = n -> lastN n ((x :: l) ++ [y]) = l ++ [y].
Proof.
  intros H. unfold lastN. rewrite length_app. simpl List.length in *.
  replace (S (List.length l) + 1 - n)%nat with 1%nat by lia. reflexivity.
Qed.

Lemma lastN_app_lastN n a b : lastN n (lastN n a ++ b) = lastN n (a ++ b).
Proof.
  unfold lastN. rewrite !length_app, length_skipn.
  destruct (Nat.le_gt_cases (List.length a) n) as [Hle|Hgt].
  - replace (List.length a - n)%nat with 0%nat by lia. simpl.
    now rewrite Nat.sub_0_r.
  - set (d := (List.length a - n)%nat).
    replace (List.length a - d + List.length b - n)%nat with (List.length b) by lia.
    replace (List.length a + List.length b - n)%nat with (List.length b + d)%nat by lia.
    rewrite <- skipn_skipn. f_equal.
    rewrite skipn_app.
    replace (d - List.length a)%nat with 0%nat by lia. reflexivity.
Qed.

Lemma lastN_suffix n l : exists front, l = front ++ lastN n l.
Proof.
  exists (firstn (List.length l - n) l). unfold lastN.
  symmetry. apply firstn_skipn.
Qed.
End LastNFacts.

Section CacheOrderFacts.
Import SearchCache.
Local Open Scope Z_scope.
Variable T : Type.
Implicit Types (c : SearchCache T) (key : string) (now : Z) (v : T).

Lemma size_keys c : size c = Z.of_nat (List.length (JsMap.keys (cache c))).
Proof. unfold size, getStats, JsMap.size, JsMap.keys. simpl. now rewrite length_map. Qed.

(** One insertion of a new, non-empty key. *)
Lemma set_fresh_keys c now key v ttl :
  1 <= maxSize c -> size c <= maxSize c ->
  JsMap.wf (cache c) -> ~ In EmptyString (JsMap.keys (cache c)) ->
  ~ In key (JsMap.keys (cache c)) ->
  JsMap.keys (cache (set c now key v ttl)) =
    lastN (Z.to_nat (maxSize c)) (JsMap.keys (cache c) ++ [key]).
Proof.
  intros Hpos Hsz Hwf Hne Hnew.
  assert (Hget : JsMap.get (cache c) key = None) by now apply jsmap_get_not_in.
  unfold size, getStats in Hsz. simpl in Hsz. unfold JsMap.size in Hsz.
  destruct (Z.lt_ge_cases (size c) (maxSize c)) as [Hlt|Hge].
  - rewrite (@set_fresh_below T c now key v ttl Hlt Hget), jsmap_keys_app. simpl.
    rewrite lastN_short; [reflexivity|].
    unfold size, getStats in Hlt. simpl in Hlt. unfold JsMap.size in Hlt.
    rewrite length_app. unfold JsMap.keys. rewrite length_map. simpl. lia.
  - destruct (cache c) as [|[oldest e0] rest] eqn:Hc.
    { unfold size, getStats in Hge. rewrite Hc in Hge. simpl in Hge. lia. }
    assert (Ho : oldest <> EmptyString) by (intros ->; apply Hne; now left).
    assert (Hge' : size c >= maxSize c) by lia.
    rewrite <- Hc in Hwf, Hget.
    destruct (@set_fresh_full T c now key v ttl oldest e0 rest Hwf Hc Ho Hge' Hget)
      as [_ ->].
    rewrite jsmap_keys_app. simpl.
    change (oldest :: JsMap.keys rest ++ [key])
      with ((oldest :: JsMap.keys rest) ++ [key]).
    rewrite lastN_full; [reflexivity|].
    unfold size, getStats in Hge. rewrite Hc in Hge. simpl in Hge, Hsz.
    unfold JsMap.keys. simpl. rewrite length_map.
    unfold JsMap.size in Hge. simpl in Hge. lia.
Qed.

(** Starting from a cache that respects its capacity (at least 1) and
    holds no entry under the empty key, inserting keys that are new,
    distinct and not the empty string leaves exactly the most recent
    [maxSize] keys, oldest first: each insertion into a full cache evicts
    precisely the least recently inserted key.  (An entry under the empty
    key is never evicted, so the condition on the keys already held is
    needed: see C1.) *)
Theorem inserts_keep_last_keys (inserts : list (Insert T)) c :
  1 <= maxSize c -> size c <= maxSize c ->
  NoDup (JsMap.keys (cache c) ++ List.map (@insert_key T) inserts) ->
  ~ In EmptyString (JsMap.keys (cache c) ++ List.map (@insert_key T) inserts) ->
  JsMap.keys (cache (run c (List.map (@insert_op T) inserts))) =
    lastN (Z.to_nat (maxSize c))
          (JsMap.keys (cache c) ++ List.map (@insert_key T) inserts).
Proof.
  revert c. induction inserts as [|[[[now key] v] ttl] inserts IH];
    intros c Hpos Hsz Hnd Hne.
  - simpl. rewrite app_nil_r in *. rewrite lastN_short; [reflexivity|].
    rewrite size_keys in Hsz. lia.
  - cbn [List.map run fold_left insert_op step] in *.
    change (insert_key (now, key, v, ttl)) with key in *.
    set (ks := List.map (@insert_key T) inserts) in *.
    set (K := JsMap.keys (cache c)) in *.
    assert (Hwf : JsMap.wf (cache c)) by (apply NoDup_app_remove_r in Hnd; exact Hnd).
    assert (HneK : ~ In EmptyString K) by (intros H; apply Hne, in_or_app; now left).
    assert (Hnew : ~ In key K).
    { intros H. apply NoDup_remove_2 in Hnd. apply Hnd, in_or_app. now left. }
    pose proof (@set_fresh_keys c now key v ttl Hpos Hsz Hwf HneK Hnew) as Hstep.
    fold K in Hstep.
    set (c' := set c now key v ttl) in *.
    assert (Hmax : maxSize c' = maxSize c) by reflexivity.
    destruct (lastN_suffix (Z.to_nat (maxSize c)) (K ++ [key])) as [front Hfront].
    assert (Hall : K ++ key :: ks = front ++ JsMap.keys (cache c') ++ ks).
    { rewrite Hstep, app_assoc, <- Hfront, <- app_assoc. reflexivity. }
    fold (run c' (List.map (@insert_op T) inserts)).
    rewrite IH; fold ks.
    + rewrite Hmax, Hstep, lastN_app_lastN, <- app_assoc. reflexivity.
    + lia.
    + rewrite size_keys, Hstep, Hmax.
      pose proof (lastN_length (Z.to_nat (maxSize c)) (K ++ [key])). lia.
    + rewrite Hall in Hnd. now apply NoDup_app_remove_l in Hnd.
    + rewrite Hall in Hne. intros H. apply Hne, in_or_app. now right.
Qed.
End CacheOrderFacts.

(** ** Keys made by [generateKey] *)
Section KeyFacts.
Import JsString SearchCache.
Local Open Scope string_scope.

Lemma isWhiteSpace_lowerChar c : isWhiteSpace (lowerChar c) = isWhiteSpace c.
Proof. each_code_unit c. Qed.

Lemma lowerChar_idempotent c : lowerChar (lowerChar c) = lowerChar c.
Proof. each_code_unit c. Qed.

Lemma toLowerCase_idempotent s : toLowerCase (toLowerCase s) = toLowerCase s.
Proof.
  induction s as [|c s IH]; simpl; auto.
  now rewrite lowerChar_idempotent, IH.
Qed.

Lemma toLowerCase_trimStart s : toLowerCase (trimStart s) = trimStart (toLowerCase s).
Proof.
  induction s as [|c s IH]; simpl; auto.
  rewrite isWhiteSpace_lowerChar. now destruct (isWhiteSpace c).
Qed.

Lemma toLowerCase_trimEnd s : toLowerCase (trimEnd s) = trimEnd (toLowerCase s).
Proof.
  induction s as [|c s IH]; simpl; auto.
  rewrite <- IH, isWhiteSpace_lowerChar.
  destruct (trimEnd s); simpl; auto.
  now destruct (isWhiteSpace c).
Qed.

Lemma toLowerCase_trim s : toLowerCase (trim s) = trim (toLowerCase s).
Proof. unfold trim. now rewrite toLowerCase_trimEnd, toLowerCase_trimStart. Qed.

Lemma trimEnd_idempotent s : trimEnd (trimEnd s) = trimEnd s.
Proof.
  induction s as [|c s IH]; simpl; auto.
  destruct (trimEnd s) as [|a r] eqn:E.
  - destruct (isWhiteSpace c) eqn:Hc; simpl; auto. now rewrite Hc.
  - change (trimEnd (String c (String a r)))
      with (match trimEnd (String a r) with
            | "" => if isWhiteSpace c then "" else String c ""
            | String _ _ as r0 => String c r0
            end).
    now rewrite IH.
Qed.

(** [trimStart] yields the empty string or a string that starts with a
    code unit that is not whitespace. *)
Lemma trimStart_head s :
  trimStart s = "" \/ exists c r, trimStart s = String c r /\ isWhiteSpace c = false.
Proof.
  induction s as [|c s IH]; simpl; auto.
  destruct (isWhiteSpace c) eqn:Hc; auto.
  right. now exists c, s.
Qed.

Lemma trimEnd_head c r :
  isWhiteSpace c = false -> exists r', trimEnd (String c r) = String c r'.
Proof.
  intros Hc. simpl. destruct (trimEnd r); rewrite ?Hc; eauto.
Qed.

Lemma trim_idempotent s : trim (trim s) = trim s.
Proof.
  unfold trim. destruct (trimStart_head s) as [->|(c & r & -> & Hc)]; auto.
  destruct (@trimEnd_head c r Hc) as [r' Hr]. rewrite Hr.
  cbn [trimStart]. rewrite Hc, <- Hr. apply trimEnd_idempotent.
Qed.

Lemma string_app_inv_tail (s1 s2 t : string) : s1 ++ t = s2 ++ t -> s1 = s2.
Proof.
  intros H.
  assert (Happ : forall a b, list_ascii_of_string (a ++ b)
                 = (list_ascii_of_string a ++ list_ascii_of_string b)%list).
  { induction a as [|c a IH]; intros b; simpl; auto. now rewrite IH. }
  apply (f_equal list_ascii_of_string) in H. rewrite !Happ in H.
  apply app_inv_tail in H.
  rewrite <- (string_of_list_ascii_of_string s1), <- (string_of_list_ascii_of_string s2).
  now rewrite H.
Qed.

Lemma generateKey_nonempty query options : generateKey query options <> "".
Proof.
  unfold generateKey. destruct (trim (toLowerCase query)); discriminate.
Qed.

(** Under the same options two queries get the same key exactly when
    their normal forms (lower-cased, then trimmed) are equal, and the
    normal form of a query is itself a query with that key. *)
Theorem generateKey_canonical query1 query2 options :
  (generateKey query1 options = generateKey query2 options <->
   trim (toLowerCase query1) = trim (toLowerCase query2)) /\
  generateKey (trim (toLowerCase query1)) options = generateKey query1 options.
Proof.
  unfold generateKey. split; [split|].
  - apply string_app_inv_tail.
  - now intros ->.
  - now rewrite toLowerCase_trim, toLowerCase_idempotent, trim_idempotent.
Qed.
End KeyFacts.

Section GeneratedKeyFacts.
Import SearchCache.
Local Open Scope Z_scope.
Variable T : Type.

Lemma run_capacity (ops : list (Op T)) (c : SearchCache T) :
  1 <= maxSize c -> Forall set_key_nonempty ops ->
  no_empty_key c /\ size c <= maxSize c ->
  no_empty_key (run c ops) /\ size (run c ops) <= maxSize (run c ops).
Proof.
  intros Hpos Hops. revert c Hpos.
  induction Hops as [|op ops Hop Hops IH]; intros c Hpos Hinv; simpl; auto.
  apply IH.
  - now destruct (step_config c op) as [-> _].
  - now apply step_capacity.
Qed.

(** A cache constructed with a capacity of at least one and written only
    under keys made by [generateKey], as the web tools do, never holds more
    entries than its capacity. *)
Theorem capacity_bound_generated_keys options (ops : list (Op T)) (c : SearchCache T) :
  program options ops = Returns c ->
  1 <= maxSize c ->
  Forall set_key_generated ops ->
  size c <= maxSize c.
Proof.
  unfold program, constructor. intros [= <-] Hpos Hops.
  set (c0 := Build_SearchCache _ _ _) in *.
  assert (Hmax : maxSize (run c0 ops) = maxSize c0) by apply run_config.
  rewrite Hmax in Hpos.
  apply run_capacity.
  - exact Hpos.
  - eapply Forall_impl; [|exact Hops].
    intros [now key|now key v ttl|now key|key|]; simpl; auto.
    intros (query & opts & ->). apply generateKey_nonempty.
  - split; [unfold no_empty_key; simpl; tauto|].
    change (size c0) with 0. lia.
Qed.
End GeneratedKeyFacts.

(** * Properties of the tools *)

(** ** More facts about strings *)
Section StringSearchFacts.
Import JsString.
Local Open Scope string_scope.

Lemma allWhiteSpace_app s t : allWhiteSpace (s ++ t) = allWhiteSpace s && allWhiteSpace t.
Proof.
  induction s as [|c s IH]; simpl; auto.
  now rewrite IH, andb_assoc.
Qed.

Lemma allWhiteSpace_toLowerCase s : allWhiteSpace (toLowerCase s) = allWhiteSpace s.
Proof.
  induction s as [|c s IH]; simpl; auto.
  now rewrite isWhiteSpace_lowerChar, IH.
Qed.

Lemma trimEnd_empty s : trimEnd s = "" -> allWhiteSpace s = true.
Proof.
  induction s as [|c s IH]; simpl; auto.
  destruct (trimEnd s); [|discriminate].
  destruct (isWhiteSpace c); [auto | discriminate].
Qed.

Lemma allWhiteSpace_trimStart s : allWhiteSpace (trimStart s) = allWhiteSpace s.
Proof.
  induction s as [|c s IH]; simpl; auto.
  destruct (isWhiteSpace c) eqn:Hc; simpl; auto. now rewrite Hc.
Qed.

(** [trim] gives the empty string exactly on whitespace-only strings. *)
Lemma trim_empty_iff s : trim s = "" <-> allWhiteSpace s = true.
Proof.
  unfold trim. split.
  - intros H. apply trimEnd_empty in H. now rewrite allWhiteSpace_trimStart in H.
  - intros H. now rewrite (trimStart_whitespace _ H).
Qed.

Lemma nonEmpty_false s : nonEmpty s = false <-> s = "".
Proof. destruct s; simpl; split; congruence. Qed.

(** The test [!s || s.trim() === ''] of the three validators. *)
Lemma blank_test s :
  negb (nonEmpty s) || String.eqb (trim s) "" = allWhiteSpace s.
Proof.
  destruct (allWhiteSpace s) eqn:H.
  - apply trim_empty_iff in H. rewrite H. apply orb_true_r.
  - destruct s as [|c s]; [discriminate|]. simpl negb. simpl orb.
    apply String.eqb_neq. intros E. apply trim_empty_iff in E. congruence.
Qed.

Lemma startsWith_app p s : startsWith (p ++ s) p = true.
Proof.
  induction p as [|c p IH]; simpl; auto.
  now rewrite Ascii.eqb_refl.
Qed.

Lemma startsWith_inv s p : startsWith s p = true -> exists r, s = p ++ r.
Proof.
  revert s. induction p as [|b p IH]; intros s; simpl.
  - intros _. now exists s.
  - destruct s as [|a s]; [discriminate|].
    intros [Hab Hs]%andb_prop. apply Ascii.eqb_eq in Hab. subst.
    destruct (IH _ Hs) as [r ->]. now exists r.
Qed.

Lemma includes_startsWith s p : startsWith s p = true -> includes s p = true.
Proof. intros H. destruct s; simpl; now rewrite H. Qed.

Lemma includes_app a p b : includes (a ++ p ++ b) p = true.
Proof.
  induction a as [|c a IH]; simpl.
  - apply includes_startsWith, startsWith_app.
  - rewrite IH. apply orb_true_r.
Qed.

Lemma length_substring0 n s : String.length (substring0 n s) = Nat.min n (String.length s).
Proof.
  revert s. induction n as [|n IH]; intros [|c s]; simpl; auto.
Qed.

Lemma startsWith_substring0 n s : startsWith s (substring0 n s) = true.
Proof.
  revert s. induction n as [|n IH]; intros [|c s]; simpl; auto.
  now rewrite Ascii.eqb_refl, IH.
Qed.

Lemma length_append s t : String.length (s ++ t) = (String.length s + String.length t)%nat.
Proof. induction s as [|c s IH]; simpl; auto. Qed.
End StringSearchFacts.

(** ** Parameter validation and descriptions *)
Section ValidationFacts.
Import JsString.
Local Open Scope string_scope.

(** The web search tool accepts a query exactly when the query has a code
    unit that is not whitespace; an accepted query has a non-empty normal
    form, so its cache key is not the bare separator. *)
Theorem websearch_validate_nonblank (params : WebSearch.WebSearchToolParams) :
  (WebSearch.validateToolParamValues params = None <->
   allWhiteSpace (WebSearch.query params) = false) /\
  (WebSearch.validateToolParamValues params = None ->
   trim (toLowerCase (WebSearch.query params)) <> "" /\
   SearchCache.generateKey (WebSearch.query params) None <> ":").
Proof.
  unfold WebSearch.validateToolParamValues. rewrite blank_test.
  destruct (allWhiteSpace (WebSearch.query params)) eqn:H.
  - split; [split; discriminate | discriminate].
  - split; [split; reflexivity|]. intros _.
    assert (Hn : trim (toLowerCase (WebSearch.query params)) <> "").
    { intros E. apply trim_empty_iff in E.
      rewrite allWhiteSpace_toLowerCase in E. congruence. }
    split; [exact Hn|].
    unfold SearchCache.generateKey.
    destruct (trim (toLowerCase (WebSearch.query params))) as [|c r]; [congruence|].
    simpl. destruct r; discriminate.
Qed.

(** A URL that starts with http:// or https:// is not blank. *)
Lemma http_url_not_blank u :
  startsWith u "http://" = true \/ startsWith u "https://" = true ->
  allWhiteSpace u = false.
Proof.
  intros [H|H]; apply startsWith_inv in H; destruct H as [r ->]; reflexivity.
Qed.

(** The image tool accepts a URL exactly when it starts with http:// or
    https://, with nothing before the scheme, not even whitespace. *)
Theorem imageurl_validate_scheme (params : ImageUrl.ReadImageUrlToolParams) :
  ImageUrl.validateToolParamValues params = None <->
  (startsWith (ImageUrl.url params) "http://" = true \/
   startsWith (ImageUrl.url params) "https://" = true).
Proof.
  unfold ImageUrl.validateToolParamValues. rewrite blank_test.
  destruct (startsWith (ImageUrl.url params) "http://"
            || startsWith (ImageUrl.url params) "https://") eqn:Hs.
  - apply orb_prop in Hs.
    rewrite (http_url_not_blank _ Hs).
    replace (negb (startsWith (ImageUrl.url params) "http://")
             && negb (startsWith (ImageUrl.url params) "https://")) with false
      by (destruct Hs as [-> | ->]; simpl; now rewrite ?andb_false_r).
    split; auto.
  - apply orb_false_elim in Hs. destruct Hs as [H1 H2]. rewrite H1, H2. simpl.
    destruct (allWhiteSpace (ImageUrl.url params));
      (split; [discriminate | intros [?|?]; discriminate]).
Qed.

(** The web fetch tool accepts its parameters exactly when the URL starts
    with http:// or https:// and the prompt has a code unit that is not
    whitespace. *)
Theorem webfetch_validate_scheme_and_prompt (params : WebFetch.WebFetchToolParams) :
  WebFetch.validateToolParamValues params = None <->
  ((startsWith (WebFetch.url params) "http://" = true \/
    startsWith (WebFetch.url params) "https://" = true) /\
   allWhiteSpace (WebFetch.prompt params) = false).
Proof.
  unfold WebFetch.validateToolParamValues. rewrite !blank_test.
  destruct (startsWith (WebFetch.url params) "http://"
            || startsWith (WebFetch.url params) "https://") eqn:Hs.
  - apply orb_prop in Hs.
    rewrite (http_url_not_blank _ Hs).
    replace (negb (startsWith (WebFetch.url params) "http://")
             && negb (startsWith (WebFetch.url params) "https://")) with false
      by (destruct Hs as [-> | ->]; simpl; now rewrite ?andb_false_r).
    destruct (allWhiteSpace (WebFetch.prompt params)).
    + split; [discriminate | intros [_ ?]; discriminate].
    + split; auto.
  - apply orb_false_elim in Hs. destruct Hs as [H1 H2]. rewrite H1, H2. simpl.
    destruct (allWhiteSpace (WebFetch.url params));
      (split; [discriminate | intros [[?|?] _]; discriminate]).
Qed.

(** The prompt shown in the description of a web fetch is never longer
    than 100 code units: a prompt of at most 100 is shown whole, a longer
    one as its first 97 code units followed by three dots. *)
Theorem webfetch_displayPrompt_bounded (params : WebFetch.WebFetchToolParams) :
  (String.length (WebFetch.displayPrompt params) <= 100)%nat /\
  ((String.length (WebFetch.prompt params) <= 100)%nat ->
   WebFetch.displayPrompt params = WebFetch.prompt params) /\
  ((100 < String.length (WebFetch.prompt params))%nat ->
   String.length (WebFetch.displayPrompt params) = 100%nat /\
   exists head, WebFetch.displayPrompt params = head ++ "..." /\
                String.length head = 97%nat /\
                startsWith (WebFetch.prompt params) head = true).
Proof.
  unfold WebFetch.displayPrompt.
  destruct (Nat.ltb_spec 100 (String.length (WebFetch.prompt params))) as [Hlong|Hshort].
  - assert (Hlen : String.length (substring0 97 (WebFetch.prompt params)) = 97%nat)
      by (rewrite length_substring0; lia).
    assert (Hall : String.length (substring0 97 (WebFetch.prompt params) ++ "...") = 100%nat)
      by (rewrite length_append, Hlen; reflexivity).
    split; [lia|]. split; [lia|]. intros _. split; [exact Hall|].
    exists (substring0 97 (WebFetch.prompt params)).
    split; [reflexivity|]. split; [exact Hlen|]. apply startsWith_substring0.
  - split; [lia|]. split; [reflexivity | lia].
Qed.

(** The MIME type taken from a URL is always a key of
    [SUPPORTED_IMAGE_TYPES]; it does not depend on letter case; and the
    test is a substring test with .jpg first: a URL with .jpg anywhere in
    it is taken for a JPEG whatever else it contains. *)
Theorem getMimeTypeFromUrl_supported (u : string) :
  (forall mime, ImageUrl.getMimeTypeFromUrl u = Some mime ->
     In mime (List.map fst ImageUrl.SUPPORTED_IMAGE_TYPES)) /\
  (forall u', sameUpToCase u u' ->
     ImageUrl.getMimeTypeFromUrl u' = ImageUrl.getMimeTypeFromUrl u) /\
  (forall a b, u = a ++ ".jpg" ++ b ->
     ImageUrl.getMimeTypeFromUrl u = Some "image/jpeg").
Proof.
  split; [|split].
  - intros mime. unfold ImageUrl.getMimeTypeFromUrl.
    repeat match goal with
           | |- context [if ?b then _ else _] => destruct b
           end; intros [= <-]; simpl; tauto.
  - intros u' H. unfold ImageUrl.getMimeTypeFromUrl.
    now rewrite (toLowerCase_sameUpToCase H).
  - intros a b ->. unfold ImageUrl.getMimeTypeFromUrl.
    rewrite !toLowerCase_app.
    change (toLowerCase ".jpg") with ".jpg".
    now rewrite includes_app.
Qed.
End ValidationFacts.

(** ** The web search tool *)
Section WebSearchFacts.
Import JsString WebSearch.
Local Open Scope string_scope.

Lemma nonEmpty_trim s : nonEmpty (trim s) = negb (allWhiteSpace s).
Proof.
  destruct (allWhiteSpace s) eqn:H.
  - apply trim_empty_iff in H. now rewrite H.
  - destruct (trim s) eqn:E; [|reflexivity].
    apply trim_empty_iff in E. congruence.
Qed.

Lemma allWhiteSpace_trim s : allWhiteSpace (trim s) = allWhiteSpace s.
Proof.
  destruct (allWhiteSpace s) eqn:H.
  - apply trim_empty_iff in H. now rewrite H.
  - destruct (allWhiteSpace (trim s)) eqn:E; [|reflexivity].
    apply trim_empty_iff in E. rewrite trim_idempotent in E.
    apply trim_empty_iff in E. congruence.
Qed.

Lemma formatResult_blank params data isCached :
  Cached.results data = [] -> answerBlank data ->
  formatResult params data isCached = noInformation params isCached.
Proof.
  unfold formatResult, answerBlank. destruct data as [ans rs].
  cbn [Cached.answer Cached.results]. intros -> Hblank.
  destruct ans as [a|].
  - rewrite (nonEmpty_trim a), Hblank. reflexivity.
  - reflexivity.
Qed.

Lemma formatResult_answer params a isCached :
  allWhiteSpace a = false ->
  formatResult params {| Cached.answer := Some a; Cached.results := [] |} isCached
  = found params {| Cached.answer := Some a; Cached.results := [] |} isCached (trim a).
Proof.
  intros Ha. unfold formatResult. cbn [Cached.answer Cached.results].
  rewrite !(nonEmpty_trim a), Ha.
  cbn [negb List.map mapi List.length Nat.ltb Nat.leb].
  rewrite !(nonEmpty_trim a), Ha. cbn [negb].
  rewrite (nonEmpty_trim (trim a)), allWhiteSpace_trim, Ha. reflexivity.
Qed.

Lemma length_mapi (A B : Type) (f : A -> nat -> B) i (xs : list A) :
  List.length (mapi f i xs) = List.length xs.
Proof. revert i. induction xs as [|x xs IH]; intros i; simpl; auto. Qed.

Lemma formatResult_results params ans r rs isCached :
  exists content,
    formatResult params {| Cached.answer := ans; Cached.results := r :: rs |} isCached
    = found params {| Cached.answer := ans; Cached.results := r :: rs |} isCached content.
Proof.
  unfold formatResult. cbn [Cached.answer Cached.results].
  rewrite length_mapi, length_map. cbn [List.length Nat.ltb Nat.leb].
  rewrite nonEmpty_trim, allWhiteSpace_app.
  match goal with
  | |- context [allWhiteSpace (nl ++ ?rest)] =>
      replace (allWhiteSpace (nl ++ rest)) with false by reflexivity
  end.
  rewrite andb_false_r. cbn [negb]. eexists. reflexivity.
Qed.

(** [formatResult] answers "No information found." exactly when there is
    no result and no answer other than whitespace; otherwise it returns
    one source per result, in the order of the results.  The [cached] flag
    is returned in both cases. *)
Theorem formatResult_no_information params (data : Cached.SearchResult) isCached :
  (returnDisplay (formatResult params data isCached) = "No information found." <->
   Cached.results data = [] /\ answerBlank data) /\
  (~ (Cached.results data = [] /\ answerBlank data) ->
   sources (formatResult params data isCached) =
     Some (List.map (fun r => {| Source.title := Cached.title r;
                                 Source.url := Cached.url r |})
                    (Cached.results data))) /\
  cached (formatResult params data isCached) = Some isCached.
Proof.
  assert (Hcases : (Cached.results data = [] /\ answerBlank data) \/
                   exists content, formatResult params data isCached
                                   = found params data isCached content).
  { destruct data as [ans [|r rs]].
    - destruct ans as [a|].
      + destruct (allWhiteSpace a) eqn:Ha.
        * left. split; [reflexivity | exact Ha].
        * right. eexists. now apply formatResult_answer.
      + left. split; [reflexivity | exact I].
    - right. apply formatResult_results. }
  destruct Hcases as [[Hr Hb]|[content Hf]].
  - rewrite (formatResult_blank params data isCached Hr Hb).
    split; [|split]; [tauto | tauto | reflexivity].
  - rewrite Hf. split; [|split].
    + split; [discriminate|]. intros [Hr Hb].
      rewrite (formatResult_blank params data isCached Hr Hb) in Hf. discriminate.
    + reflexivity.
    + reflexivity.
Qed.
End WebSearchFacts.

(** *** The retry loop *)
Section RetryFacts.
Import JsString WebSearch.
Local Open Scope Z_scope.
Variables apiKey searchQuery : string.
Variable env : nat -> Attempt.

Lemma tryOnce_events (a : Attempt) :
  (fetches (snd (tryOnce apiKey searchQuery a)) <= 1)%nat /\
  slept (snd (tryOnce apiKey searchQuery a)) = 0.
Proof.
  unfold tryOnce. destruct (abortedAtStart a); simpl; [auto|].
  destruct (fetched a) as [response|message]; simpl; [|auto].
  destruct (ok response); simpl; auto.
Qed.

Lemma tryOnce_aborted (a : Attempt) :
  abortedAtStart a = true ->
  tryOnce apiKey searchQuery a = (Throws "Search aborted"%string, []).
Proof. unfold tryOnce. now intros ->. Qed.

Lemma tryOnce_returns (a : Attempt) data :
  fst (tryOnce apiKey searchQuery a) = Returns data ->
  abortedAtStart a = false /\
  exists r, fetched a = Returns r /\ ok r = true /\ json r = Returns data.
Proof.
  unfold tryOnce. destruct (abortedAtStart a); simpl; [discriminate|].
  destruct (fetched a) as [response|message]; simpl; [|discriminate].
  destruct (ok response) eqn:Hok; simpl; [|discriminate].
  intros H. split; [reflexivity|]. now exists response.
Qed.

Lemma fetches_app (e1 e2 : list Event) : fetches (e1 ++ e2) = (fetches e1 + fetches e2)%nat.
Proof.
  induction e1 as [|[u b|ms] e1 IH]; simpl; auto.
Qed.

Lemma slept_app (e1 e2 : list Event) : slept (e1 ++ e2) = slept e1 + slept e2.
Proof.
  induction e1 as [|[u b|ms] e1 IH]; simpl; auto. lia.
Qed.

Lemma searchLoop_bounded passes : forall attempt lastError,
  let run := searchLoop apiKey searchQuery env passes attempt lastError in
  (fetches (snd run) <= passes)%nat /\
  0 <= slept (snd run) <= backoffBudget attempt /\
  (forall n, (attempt <= n)%nat -> abortedAtStart (env n) = true ->
     (fetches (snd run) <= n - attempt)%nat) /\
  (forall data, fst run = Returns data ->
     exists n r, (attempt <= n < attempt + passes)%nat /\
                 abortedAtStart (env n) = false /\
                 fetched (env n) = Returns r /\ ok r = true /\ json r = Returns data).
Proof.
  induction passes as [|passes IH]; intros attempt lastError; cbv zeta.
  - simpl. repeat split; try lia.
    + destruct attempt as [|[|?]]; simpl; lia.
    + discriminate.
  - cbn [searchLoop].
    pose proof (tryOnce_events (env attempt)) as [Hf Hs].
    pose proof (tryOnce_returns (env attempt)) as Hret.
    pose proof (@tryOnce_aborted (env attempt)) as Hab.
    destruct (tryOnce apiKey searchQuery (env attempt)) as [[data|message] events].
    + simpl in *. repeat split; try lia.
      * rewrite Hs. destruct attempt as [|[|?]]; simpl; lia.
      * intros n Hn Hn'.
        destruct (Nat.eq_dec n attempt) as [->|Hne]; [|lia].
        specialize (Hab Hn'). discriminate.
      * intros d [= <-]. destruct (Hret data eq_refl) as [Ha (r & Hr)].
        exists attempt, r. repeat split; try tauto; lia.
    + assert (Hstop :
        (fetches events <= S passes)%nat /\
        0 <= slept events <= backoffBudget attempt /\
        (forall n, (attempt <= n)%nat -> abortedAtStart (env n) = true ->
           (fetches events <= n - attempt)%nat)).
      { simpl in Hf, Hs. repeat split; try lia.
        - rewrite Hs. destruct attempt as [|[|?]]; simpl; lia.
        - intros n Hn Hn'.
          destruct (Nat.eq_dec n attempt) as [->|Hne]; [|lia].
          specialize (Hab Hn'). injection Hab as _ ->. simpl. lia. }
      destruct (abortedAtCatch (env attempt) || (MAX_RETRIES <=? attempt)%nat) eqn:Hgive.
      { simpl. destruct Hstop as (? & ? & ?). repeat split; auto; try lia. discriminate. }
      destruct (includes message "abort" && negb (includes message "timeout")) eqn:Hkind.
      { simpl. destruct Hstop as (? & ? & ?). repeat split; auto; try lia. discriminate. }
      apply orb_false_elim in Hgive. destruct Hgive as [_ Hlt].
      apply Nat.leb_gt in Hlt. unfold MAX_RETRIES in Hlt.
      specialize (IH (S attempt) (Some message)). cbv zeta in IH.
      destruct (searchLoop apiKey searchQuery env passes (S attempt) (Some message))
        as [result later].
      cbn [fst snd] in *. destruct IH as (IHf & IHs & IHa & IHr).
      rewrite !fetches_app, !slept_app. cbn [fetches slept].
      unfold RETRY_DELAY_MS.
      assert (Hbudget : backoffBudget attempt
                        = 500 * (Z.of_nat attempt + 1) + backoffBudget (S attempt)).
      { destruct attempt as [|[|?]]; [reflexivity | reflexivity | lia]. }
      repeat split.
      * lia.
      * lia.
      * lia.
      * intros n Hn Hn'.
        destruct (Nat.eq_dec n attempt) as [->|Hne].
        -- specialize (Hab Hn'). injection Hab as Hm _.
           rewrite Hm in Hkind. discriminate.
        -- assert (Hn1 : (S attempt <= n)%nat) by lia.
           specialize (IHa n Hn1 Hn'). lia.
      * intros d Hd. destruct (IHr d Hd) as (n & r & Hn & Hrest).
        exists n, r. split; [lia | exact Hrest].
Qed.

(** Whatever the network does, a search makes at most three requests and
    sleeps at most 1500 ms in all; once a pass starts with the signal
    aborted, no further request is made; and a result is always the parsed
    body of a response that was [ok]. *)
Theorem executeSearch_bounded :
  (fetches (snd (executeSearch apiKey searchQuery env)) <= 3)%nat /\
  0 <= slept (snd (executeSearch apiKey searchQuery env)) <= 1500 /\
  (forall n, abortedAtStart (env n) = true ->
     (fetches (snd (executeSearch apiKey searchQuery env)) <= n)%nat) /\
  (forall data, fst (executeSearch apiKey searchQuery env) = Returns data ->
     exists n r, (n <= 2)%nat /\ abortedAtStart (env n) = false /\
                 fetched (env n) = Returns r /\ ok r = true /\ json r = Returns data).
Proof.
  unfold executeSearch.
  destruct (searchLoop_bounded (S MAX_RETRIES) 0 None) as (Hf & Hs & Ha & Hr).
  cbv zeta in *. unfold MAX_RETRIES in *. simpl backoffBudget in Hs.
  split; [exact Hf|]. split; [exact Hs|]. split.
  - intros n Hn. specialize (Ha n (Nat.le_0_l n) Hn). lia.
  - intros data Hd. destruct (Hr data Hd) as (n & r & Hn & Hrest).
    exists n, r. split; [lia | exact Hrest].
Qed.

(** When the signal is never aborted and each of the three passes fails
    with a retryable error (any error whose message does not contain
    "abort", an HTTP error status included), the loop requests three
    times, sleeping 500 ms and then 1000 ms in between, and throws the
    last error. *)
Theorem executeSearch_retries (m : nat -> string) :
  (forall n, (n <= 2)%nat ->
     abortedAtStart (env n) = false /\ abortedAtCatch (env n) = false /\
     fst (tryOnce apiKey searchQuery (env n)) = Throws (m n) /\ retryable (m n)) ->
  let request := Fetch "https://api.tavily.com/search" (requestBody apiKey searchQuery) in
  executeSearch apiKey searchQuery env =
    (Throws (m 2%nat), [request; Sleep 500; request; Sleep 1000; request]).
Proof.
  intros H request.
  assert (Hpass : forall n, (n <= 2)%nat ->
            tryOnce apiKey searchQuery (env n) = (Throws (m n), [request]) /\
            abortedAtCatch (env n) = false /\
            includes (m n) "abort" && negb (includes (m n) "timeout") = false).
  { intros n Hn. destruct (H n Hn) as (Hs & Hc & Ht & Hk).
    split; [|split; [exact Hc|]].
    - unfold tryOnce in *. rewrite Hs in *.
      destruct (fetched (env n)) as [response|message]; simpl in *.
      + destruct (ok response); simpl in *; now rewrite Ht.
      + now rewrite Ht.
    - destruct Hk as [-> | ->]; simpl; [reflexivity | apply andb_false_r]. }
  destruct (Hpass 0%nat ltac:(lia)) as (T0 & C0 & K0).
  destruct (Hpass 1%nat ltac:(lia)) as (T1 & C1 & K1).
  destruct (Hpass 2%nat ltac:(lia)) as (T2 & C2 & K2).
  unfold executeSearch, MAX_RETRIES. cbn [searchLoop].
  rewrite T0, C0, K0, T1, C1, K1, T2, C2. reflexivity.
Qed.
End RetryFacts.

(** *** [execute] and the shared cache *)
Section WebSearchExecuteFacts.
Import JsString WebSearch.
Local Open Scope Z_scope.
Variable getErrorMessage : string -> string.
Implicit Types (params : WebSearchToolParams) (c : CacheState) (env : nat -> Attempt).

(** After a miss the key has no entry. *)
Lemma get_miss_no_entry (T : Type) (c : SearchCache.SearchCache T) now key :
  fst (SearchCache.get c now key) = None ->
  JsMap.get (SearchCache.cache (snd (SearchCache.get c now key))) key = None.
Proof.
  unfold SearchCache.get.
  destruct (JsMap.get (SearchCache.cache c) key) as [entry|] eqn:E; simpl; auto.
  destruct (now >? SearchCache.expiresAt entry); simpl; [|discriminate].
  intros _. apply jsmap_get_delete_same.
Qed.

Lemma execute_hit configKey envKey params c t1 t2 env entry :
  truthy (apiKeyOf configKey envKey) = true ->
  JsMap.get (SearchCache.cache c) (cacheKeyOf params) = Some entry ->
  t1 <= SearchCache.expiresAt entry ->
  execute getErrorMessage configKey envKey params c t1 t2 env =
    (formatResult params (SearchCache.value entry) true,
     snd (SearchCache.get c t1 (cacheKeyOf params)), []).
Proof.
  intros Hkey Hentry Hlive. unfold execute. rewrite Hkey. simpl negb. cbv iota.
  cbv zeta. rewrite (get_live c _ Hentry Hlive). reflexivity.
Qed.

Lemma execute_searched configKey envKey params c t1 t2 env :
  truthy (apiKeyOf configKey envKey) = true ->
  fst (SearchCache.get c t1 (cacheKeyOf params)) = None ->
  execute getErrorMessage configKey envKey params c t1 t2 env =
    let c1 := snd (SearchCache.get c t1 (cacheKeyOf params)) in
    match executeSearch (nullish (apiKeyOf configKey envKey) EmptyString)
                        (query params) env with
    | (Returns data, events) =>
        let entry :=
          {| Cached.answer := Tavily.answer data;
             Cached.results :=
               List.map (fun r => {| Cached.title := Tavily.title r;
                                     Cached.url := Tavily.url r;
                                     Cached.content := Tavily.content r |})
                        (nullish (Tavily.results data) []) |} in
        (formatResult params entry false,
         SearchCache.set c1 t2 (cacheKeyOf params) entry None, events)
    | (Throws message, events) =>
        (fst (fst (execute getErrorMessage configKey envKey params c t1 t2 env)),
         c1, events)
    end.
Proof.
  intros Hkey Hmiss. unfold execute. rewrite Hkey. simpl negb. cbv iota. cbv zeta.
  destruct (SearchCache.get c t1 (cacheKeyOf params)) as [hit c1] eqn:Hget.
  simpl in Hmiss. subst hit. cbn [snd].
  destruct (executeSearch _ (query params) env) as [[data|message] events]; reflexivity.
Qed.

(** Without an API key [execute] touches neither the cache nor the
    network; and on a cache hit it returns the cached result, marked as
    cached, without any request, whatever the network would have done. *)
Theorem execute_without_network configKey envKey params c t1 t2 env :
  (truthy configKey = false -> truthy envKey = false ->
   returnDisplay (fst (fst (execute getErrorMessage configKey envKey params c t1 t2 env)))
     = "Web search disabled. Configure TAVILY_API_KEY to enable Tavily search."%string /\
   snd (fst (execute getErrorMessage configKey envKey params c t1 t2 env)) = c /\
   snd (execute getErrorMessage configKey envKey params c t1 t2 env) = []) /\
  (forall entry,
     truthy (apiKeyOf configKey envKey) = true ->
     JsMap.get (SearchCache.cache c) (cacheKeyOf params) = Some entry ->
     t1 <= SearchCache.expiresAt entry ->
     execute getErrorMessage configKey envKey params c t1 t2 env =
       (formatResult params (SearchCache.value entry) true,
        snd (SearchCache.get c t1 (cacheKeyOf params)), [])).
Proof.
  split.
  - intros Hc He. unfold execute, apiKeyOf. rewrite Hc, He. simpl. auto.
  - intros entry. apply execute_hit.
Qed.


(** A failed search is not cached: after a miss whose search throws, the
    key still has no entry, and the events are those of the search. *)
Theorem execute_failure_not_cached configKey envKey params c t1 t2 env message :
  truthy (apiKeyOf configKey envKey) = true ->
  fst (SearchCache.get c t1 (cacheKeyOf params)) = None ->
  fst (executeSearch (nullish (apiKeyOf configKey envKey) EmptyString)
                     (query params) env) = Throws message ->
  JsMap.get (SearchCache.cache
               (snd (fst (execute getErrorMessage configKey envKey params c t1 t2 env))))
            (cacheKeyOf params) = None /\
  snd (execute getErrorMessage configKey envKey params c t1 t2 env)
    = snd (executeSearch (nullish (apiKeyOf configKey envKey) EmptyString)
                         (query params) env) /\
  sources (fst (fst (execute getErrorMessage configKey envKey params c t1 t2 env))) = None.
Proof.
  intros Hkey Hmiss Hsearch.
  assert (Hsrc : sources (fst (fst (execute getErrorMessage configKey envKey params
                                            c t1 t2 env))) = None).
  { unfold execute. rewrite Hkey. simpl negb. cbv iota. cbv zeta.
    destruct (SearchCache.get c t1 (cacheKeyOf params)) as [hit c1].
    simpl in Hmiss. subst hit.
    destruct (executeSearch _ (query params) env) as [result events].
    simpl in Hsearch. subst result. reflexivity. }
  split; [|split; [|exact Hsrc]].
  - rewrite (execute_searched _ _ _ _ _ _ _ Hkey Hmiss). cbv zeta.
    destruct (executeSearch _ (query params) env) as [result events].
    simpl in Hsearch. subst result. cbn [fst snd].
    now apply get_miss_no_entry.
  - rewrite (execute_searched _ _ _ _ _ _ _ Hkey Hmiss). cbv zeta.
    destruct (executeSearch _ (query params) env) as [result events].
    simpl in Hsearch. subst result. reflexivity.
Qed.
End WebSearchExecuteFacts.

(** ** The web fetch tool *)
Section CacheValueFacts.
Import SearchCache.
Variable T : Type.
Variable P : CacheEntry T -> Prop.

Lemma get_forall_entries (c : SearchCache T) now key :
  Forall (fun kv => P (snd kv)) (cache c) ->
  Forall (fun kv => P (snd kv)) (cache (snd (get c now key))).
Proof.
  intros H.
  destruct (cache_after_get c now key) as [->|[->|(entry & E & ->)]]; auto.
  - now apply jsmap_forall_delete.
  - apply jsmap_forall_set; [now apply jsmap_forall_delete|].
    apply jsmap_get_in in E. rewrite Forall_forall in H. apply (H _ E).
Qed.

Lemma set_forall_entries (c : SearchCache T) now key v ttl :
  Forall (fun kv => P (snd kv)) (cache c) ->
  P {| value := v; timestamp := now; expiresAt := (now + nullish ttl (defaultTtlMs c))%Z |} ->
  Forall (fun kv => P (snd kv)) (cache (set c now key v ttl)).
Proof.
  intros H Hv. unfold set. simpl. apply jsmap_forall_set; [|exact Hv].
  unfold evict. destruct (_ >=? _)%Z; auto.
  destruct (JsMap.first_key (cache c)) as [k0|]; simpl; auto.
  destruct k0; auto. now apply jsmap_forall_delete.
Qed.
End CacheValueFacts.

Section WebFetchFacts.
Import JsString WebFetch.
Local Open Scope Z_scope.
Variable fetchWithTimeout : string -> attempt Response.
Variable convert : string -> string.
Variable generateContent : string -> attempt (option string).
Implicit Types (params : WebFetchToolParams) (c : CacheState).

(** The cache after [executeDirectFetch]: the cache after the lookup, or
    that cache with the converted text of a page, cut at the limit, set
    under the key. *)
Lemma executeDirectFetch_cache params c t1 t2 :
  let key := SearchCache.generateKey (fetchUrl params) None in
  let c1 := snd (SearchCache.get c t1 key) in
  let c2 := snd (fst (executeDirectFetch fetchWithTimeout convert generateContent
                                         params c t1 t2)) in
  c2 = c1 \/
  exists html,
    c2 = SearchCache.set c1 t2 key
           (substring0 (N.to_nat MAX_CONTENT_LENGTH) (convert html)) None.
Proof.
  cbv zeta. unfold executeDirectFetch. cbv zeta.
  destruct (SearchCache.get c t1 (SearchCache.generateKey (fetchUrl params) None))
    as [cachedText c1]. cbn [snd].
  destruct (truthy cachedText).
  { destruct (generateContent _); cbn [fst snd]; auto. }
  destruct (fetchWithTimeout (fetchUrl params)) as [response|e]; [|cbn; auto].
  destruct (ok response); cbn [negb]; [|cbn; auto].
  destruct (text response) as [html|e]; [|cbn; auto].
  right. exists html.
  destruct (generateContent _); reflexivity.
Qed.

(** Every text that the tool stores in the shared cache has at most
    100000 code units: if the cached texts respect this bound before
    [executeDirectFetch], they respect it after. *)
Theorem webfetch_cached_text_bounded params c t1 t2 :
  Forall (fun kv => (N.of_nat (String.length (SearchCache.value (snd kv))) <= 100000)%N)
         (SearchCache.cache c) ->
  Forall (fun kv => (N.of_nat (String.length (SearchCache.value (snd kv))) <= 100000)%N)
         (SearchCache.cache
            (snd (fst (executeDirectFetch fetchWithTimeout convert generateContent
                                          params c t1 t2)))).
Proof.
  intros H.
  pose proof (get_forall_entries
                (fun e => (N.of_nat (String.length (SearchCache.value e)) <= 100000)%N)
                c t1 (SearchCache.generateKey (fetchUrl params) None) H) as H1.
  destruct (executeDirectFetch_cache params c t1 t2) as [-> | [html ->]].
  - exact H1.
  - apply (set_forall_entries
             (fun e => (N.of_nat (String.length (SearchCache.value e)) <= 100000)%N));
      [exact H1|].
    cbn [SearchCache.value]. rewrite length_substring0.
    unfold MAX_CONTENT_LENGTH. lia.
Qed.

(** A cached text is used only when it is not empty: on a live entry with
    a non-empty text nothing is fetched and the cached text goes to the
    model; on a live entry whose text is the empty string the page is
    fetched again. *)
Theorem webfetch_cached_text_use params c t1 t2 entry :
  JsMap.get (SearchCache.cache c) (SearchCache.generateKey (fetchUrl params) None)
    = Some entry ->
  t1 <= SearchCache.expiresAt entry ->
  let events := snd (executeDirectFetch fetchWithTimeout convert generateContent
                                        params c t1 t2) in
  (SearchCache.value entry <> EmptyString ->
   events = [Generate (fallbackPrompt params (SearchCache.value entry))]) /\
  (SearchCache.value entry = EmptyString ->
   exists later, events = Fetch (fetchUrl params) :: later).
Proof.
  intros Hentry Hlive. cbv zeta. unfold executeDirectFetch. cbv zeta.
  rewrite (get_live c _ Hentry Hlive).
  destruct (SearchCache.value entry) as [|ch rest] eqn:Hv; cbn [truthy nullish].
  - split; [congruence|]. intros _.
    destruct (fetchWithTimeout (fetchUrl params)) as [response|e]; [|cbn; eauto].
    destruct (ok response); cbn [negb]; [|cbn; eauto].
    destruct (text response) as [html|e]; [|cbn; eauto].
    destruct (generateContent _); cbn; eauto.
  - split; [|discriminate]. intros _.
    destruct (generateContent _); reflexivity.
Qed.
(** When the cache has no usable text and the page cannot be obtained,
    the model is not called, nothing is written to the cache and the
    result carries an error of type WEB_FETCH_FALLBACK_FAILED. *)
Theorem webfetch_fetch_failure_stops params c t1 t2 :
  truthy (fst (SearchCache.get c t1 (SearchCache.generateKey (fetchUrl params) None)))
    = false ->
  fetchFails (fetchWithTimeout (fetchUrl params)) ->
  let run := executeDirectFetch fetchWithTimeout convert generateContent params c t1 t2 in
  snd run = [Fetch (fetchUrl params)] /\
  snd (fst run) = snd (SearchCache.get c t1 (SearchCache.generateKey (fetchUrl params) None)) /\
  exists message,
    error (fst (fst run)) = Some {| message := message; type := WEB_FETCH_FALLBACK_FAILED |}.
Proof.
  intros Hmiss Hfail. cbv zeta. unfold executeDirectFetch. cbv zeta.
  destruct (SearchCache.get c t1 (SearchCache.generateKey (fetchUrl params) None))
    as [cachedText c1]. cbn [fst snd] in *. rewrite Hmiss.
  unfold fetchFails in Hfail.
  destruct (fetchWithTimeout (fetchUrl params)) as [response|e].
  - destruct (ok response) eqn:Hok; cbn [negb].
    + destruct Hfail as [Hf|[e He]]; [discriminate|]. rewrite He.
      cbn. eauto.
    + cbn. eauto.
  - cbn. eauto.
Qed.
End WebFetchFacts.

(** ** Approval modes: the slash commands and the confirmations *)
Section ApprovalFacts.
Import Approval Commands.
Context {Config : Type} `{ConfigOps Config}.
Hypothesis setter : @setterSetsMode Config _.

Lemma mode_eqb_eq a b : mode_eqb a b = true <-> a = b.
Proof. destruct a, b; simpl; split; congruence. Qed.

(** [/yolo] that reports success has switched the mode: to DEFAULT when
    the mode was YOLO, to YOLO from every other mode.  Two successful
    [/yolo] in a row therefore end in DEFAULT, not in the mode before the
    first, unless that mode was YOLO. *)
Theorem yolo_toggles (config : Config) :
  let first := yoloAction (Some config) in
  (messageType (fst first) = info ->
   exists config',
     snd first = Some config' /\
     getApprovalMode config' =
       (if mode_eqb (getApprovalMode config) YOLO then DEFAULT else YOLO) /\
     (messageType (fst (yoloAction (Some config'))) = info ->
      exists config'',
        snd (yoloAction (Some config')) = Some config'' /\
        getApprovalMode config'' =
          (if mode_eqb (getApprovalMode config) YOLO then YOLO else DEFAULT))).
Proof.
  assert (Hone : forall cfg,
            messageType (fst (yoloAction (Some cfg))) = info ->
            exists cfg', snd (yoloAction (Some cfg)) = Some cfg' /\
              getApprovalMode cfg' =
                (if mode_eqb (getApprovalMode cfg) YOLO then DEFAULT else YOLO)).
  { intros cfg. unfold yoloAction. cbv zeta.
    destruct (mode_eqb (getApprovalMode cfg) YOLO).
    - pose proof (setter cfg DEFAULT) as Hs.
      destruct (setApprovalMode cfg DEFAULT) as [cfg' [message|]]; simpl;
        [discriminate|]. intros _. exists cfg'. split; auto.
    - pose proof (setter cfg YOLO) as Hs.
      destruct (setApprovalMode cfg YOLO) as [cfg' [message|]]; simpl;
        [discriminate|]. intros _. exists cfg'. split; auto. }
  cbv zeta. intros H1. destruct (Hone config H1) as (config' & Hs1 & Hm1).
  exists config'. split; [exact Hs1|]. split; [exact Hm1|].
  intros H2. destruct (Hone config' H2) as (config'' & Hs2 & Hm2).
  exists config''. split; [exact Hs2|]. rewrite Hm2, Hm1.
  destruct (mode_eqb (getApprovalMode config) YOLO); reflexivity.
Qed.

(** [/plan] behaves alike with PLAN, and either command, when it reports
    success, decides whether the web tools ask before running: after
    switching its mode on none of the three tools asks for confirmation,
    after switching it off (to DEFAULT) each of them asks. *)
Theorem toggle_decides_confirmation (config : Config)
    (search : WebSearch.WebSearchToolParams) (page : WebFetch.WebFetchToolParams)
    (image : ImageUrl.ReadImageUrlToolParams) :
  forall action own,
    (action = yoloAction /\ own = YOLO) \/ (action = planAction /\ own = PLAN) ->
    messageType (fst (action (Some config))) = info ->
    exists config',
      snd (action (Some config)) = Some config' /\
      getApprovalMode config' =
        (if mode_eqb (getApprovalMode config) own then DEFAULT else own) /\
      (getApprovalMode config <> own ->
       WebSearch.shouldConfirmExecute config' search = None /\
       WebFetch.shouldConfirmExecute config' page = None /\
       ImageUrl.shouldConfirmExecute config' image = None) /\
      (getApprovalMode config = own ->
       WebSearch.shouldConfirmExecute config' search <> None /\
       WebFetch.shouldConfirmExecute config' page <> None /\
       ImageUrl.shouldConfirmExecute config' image <> None).
Proof.
  intros action own Hwhich Hinfo.
  assert (Hstep : exists config',
            snd (action (Some config)) = Some config' /\
            getApprovalMode config' =
              (if mode_eqb (getApprovalMode config) own then DEFAULT else own)).
  { destruct Hwhich as [[-> ->]|[-> ->]]; revert Hinfo;
      [unfold yoloAction | unfold planAction]; cbv zeta.
    - destruct (mode_eqb (getApprovalMode config) YOLO).
      + pose proof (setter config DEFAULT) as Hs.
        destruct (setApprovalMode config DEFAULT) as [cfg' [message|]]; simpl;
          [discriminate|]. intros _. exists cfg'. split; auto.
      + pose proof (setter config YOLO) as Hs.
        destruct (setApprovalMode config YOLO) as [cfg' [message|]]; simpl;
          [discriminate|]. intros _. exists cfg'. split; auto.
    - destruct (mode_eqb (getApprovalMode config) PLAN).
      + pose proof (setter config DEFAULT) as Hs.
        destruct (setApprovalMode config DEFAULT) as [cfg' [message|]]; simpl;
          [discriminate|]. intros _. exists cfg'. split; auto.
      + pose proof (setter config PLAN) as Hs.
        destruct (setApprovalMode config PLAN) as [cfg' [message|]]; simpl;
          [discriminate|]. intros _. exists cfg'. split; auto. }
  destruct Hstep as (config' & Hs & Hm). exists config'.
  split; [exact Hs|]. split; [exact Hm|].
  unfold WebSearch.shouldConfirmExecute, WebFetch.shouldConfirmExecute,
    ImageUrl.shouldConfirmExecute, needsNoConfirmation. rewrite Hm.
  split.
  - intros Hne.
    destruct (mode_eqb (getApprovalMode config) own) eqn:E;
      [apply mode_eqb_eq in E; congruence|].
    destruct Hwhich as [[_ ->]|[_ ->]]; simpl; auto.
  - intros Heq. apply mode_eqb_eq in Heq. rewrite Heq. simpl.
    repeat split; discriminate.
Qed.

(** Answering a confirmation with [ProceedAlways] ends the confirmations:
    when the setter does not throw, none of the three web tools asks
    again; any other answer leaves the configuration alone. *)
Theorem proceed_always_ends_confirmation (config : Config)
    (search : WebSearch.WebSearchToolParams) (page : WebFetch.WebFetchToolParams)
    (image : ImageUrl.ReadImageUrlToolParams) :
  (snd (onConfirm config ProceedAlways) = None ->
   WebSearch.shouldConfirmExecute (fst (onConfirm config ProceedAlways)) search = None /\
   WebFetch.shouldConfirmExecute (fst (onConfirm config ProceedAlways)) page = None /\
   ImageUrl.shouldConfirmExecute (fst (onConfirm config ProceedAlways)) image = None) /\
  onConfirm config OtherOutcome = (config, None).
Proof.
  split; [|reflexivity]. simpl. intros Hok.
  unfold WebSearch.shouldConfirmExecute, WebFetch.shouldConfirmExecute,
    ImageUrl.shouldConfirmExecute, needsNoConfirmation.
  rewrite (setter config AUTO_EDIT Hok). simpl. auto.
Qed.
End ApprovalFacts.

(** ** GitHub blob URLs *)
Section BlobUrlFacts.
Import JsString.
Local Open Scope string_scope.

Lemma drop_app p s : drop (String.length p) (p ++ s) = s.
Proof. induction p as [|c p IH]; simpl; auto. Qed.

(** Whether a non-empty prefix followed by /blob/ starts with /blob/ is
    decided by the prefix and the first five code units after it. *)
Lemma startsWith_blob_prefix c x b :
  startsWith (String c x ++ "/blob/" ++ b) "/blob/"
  = startsWith (String c x ++ "/blob") "/blob/".
Proof.
  destruct x as [|c2 [|c3 [|c4 [|c5 [|c6 x]]]]]; reflexivity.
Qed.

(** The first /blob/ of a string is replaced. *)
Lemma replace_first_blob x b r :
  includes (x ++ "/blob") "/blob/" = false ->
  replace (x ++ "/blob/" ++ b) "/blob/" r = x ++ r ++ b.
Proof.
  induction x as [|c x IH]; intros H.
  - reflexivity.
  - change (includes (String c x ++ "/blob") "/blob/")
      with (startsWith (String c x ++ "/blob") "/blob/"
            || includes (x ++ "/blob") "/blob/") in H.
    apply orb_false_elim in H. destruct H as [Hhere Hlater].
    change (replace (String c x ++ "/blob/" ++ b) "/blob/" r)
      with (if startsWith (String c x ++ "/blob/" ++ b) "/blob/"
            then r ++ drop (String.length "/blob/") (String c x ++ "/blob/" ++ b)
            else String c (replace (x ++ "/blob/" ++ b) "/blob/" r)).
    rewrite startsWith_blob_prefix, Hhere, (IH Hlater). reflexivity.
Qed.

Lemma blob_url_raw a b :
  includes ("/" ++ a ++ "/blob") "/blob/" = false ->
  (includes ("https://github.com/" ++ a ++ "/blob/" ++ b) "github.com"
   && includes ("https://github.com/" ++ a ++ "/blob/" ++ b) "/blob/" = true) /\
  replace (replace ("https://github.com/" ++ a ++ "/blob/" ++ b)
                   "github.com" "raw.githubusercontent.com")
          "/blob/" "/"
  = "https://raw.githubusercontent.com/" ++ a ++ "/" ++ b.
Proof.
  intros H. split.
  - apply andb_true_intro. split.
    + apply (includes_app "https://" "github.com" ("/" ++ a ++ "/blob/" ++ b)).
    + exact (includes_app ("https://github.com/" ++ a) "/blob/" b).
  - change (replace ("https://github.com/" ++ a ++ "/blob/" ++ b)
                    "github.com" "raw.githubusercontent.com")
      with ("https://raw.githubusercontent.com" ++ ("/" ++ a) ++ "/blob/" ++ b).
    change ("https://raw.githubusercontent.com/" ++ a ++ "/" ++ b)
      with ("https://raw.githubusercontent.com" ++ ("/" ++ a) ++ "/" ++ b).
    rewrite <- (replace_first_blob ("/" ++ a) b "/") by exact H.
    reflexivity.
Qed.

(** Both tools fetch a GitHub blob URL at its raw address:
    https://github.com/A/blob/B is fetched as
    https://raw.githubusercontent.com/A/B, where /blob/ is the first
    occurrence of that text after the host; and a URL that does not
    contain github.com is fetched as it is. *)
Theorem blob_url_fetched_raw (a b : string) :
  (includes ("/" ++ a ++ "/blob") "/blob/" = false ->
   forall request description,
     WebFetch.fetchUrl {| WebFetch.url := "https://github.com/" ++ a ++ "/blob/" ++ b;
                          WebFetch.prompt := request |}
       = "https://raw.githubusercontent.com/" ++ a ++ "/" ++ b /\
     ImageUrl.fetchUrl {| ImageUrl.url := "https://github.com/" ++ a ++ "/blob/" ++ b;
                          ImageUrl.description := description |}
       = "https://raw.githubusercontent.com/" ++ a ++ "/" ++ b) /\
  (forall page image,
     includes (WebFetch.url page) "github.com" = false ->
     includes (ImageUrl.url image) "github.com" = false ->
     WebFetch.fetchUrl page = WebFetch.url page /\
     ImageUrl.fetchUrl image = ImageUrl.url image).
Proof.
  split.
  - intros H request description. destruct (@blob_url_raw a b H) as [Hcond Hraw].
    unfold WebFetch.fetchUrl, ImageUrl.fetchUrl.
    cbn [WebFetch.url ImageUrl.url]. rewrite Hcond. auto.
  - intros page image Hp Hi. unfold WebFetch.fetchUrl, ImageUrl.fetchUrl.
    now rewrite Hp, Hi.
Qed.
End BlobUrlFacts.

(** * The properties on concrete inputs *)
Section Instances.
Import SearchCache.
Local Open Scope string_scope.
Local Open Scope Z_scope.

Lemma get_hit_promotes_witness :
  fst (get sampleCache 5 "a") = Some 7 /\
  JsMap.keys (cache (snd (get sampleCache 5 "a"))) = ["b"; "a"].
Proof.
  destruct (@get_hit_promotes Z sampleCache 5 "a"
              {| value := 7; timestamp := 0; expiresAt := 10 |}
              eq_refl ltac:(simpl; lia)) as (Hv & _ & Hk & _).
  split; [exact Hv | exact Hk].
Defined.

Lemma set_preserves_other_entries_witness :
  JsMap.get (cache (set sampleCache 6 "c" 9 None)) "b" = JsMap.get (cache sampleCache) "b".
Proof.
  apply (@set_preserves_other_entries Z sampleCache 6 "c" 9 None "b").
  - discriminate.
  - right. discriminate.
Defined.

Lemma set_fresh_evicts_oldest_witness :
  JsMap.keys (cache (set sampleCache 6 "c" 9 None)) = ["b"; "c"] /\
  size (set sampleCache 6 "c" 9 None) = size sampleCache.
Proof.
  destruct (@set_fresh_evicts_oldest Z sampleCache 6 "c" 9 None "a"
              {| value := 7; timestamp := 0; expiresAt := 10 |}
              [("b", {| value := 8; timestamp := 5; expiresAt := 15 |})])
    as (Hc & _ & Hs).
  - repeat constructor; simpl; intuition discriminate.
  - reflexivity.
  - discriminate.
  - cbn. lia.
  - reflexivity.
  - split; [now rewrite Hc | exact Hs].
Defined.

Lemma get_after_set_witness :
  let c := {| cache := []; maxSize := 2; defaultTtlMs := 1000 |} in
  fst (get (set c 1700000000000 "k" 7 None) 1700000001000 "k") = Some 7 /\
  fst (get (set c 1700000000000 "k" 7 None) 1700000001001 "k") = None /\
  fst (get (set c 1700000000000 "k" 7 (Some 0)) 1700000000000 "k") = Some 7.
Proof.
  split; [|split].
  - apply (@get_after_set Z {| cache := []; maxSize := 2; defaultTtlMs := 1000 |}
             1700000000000 "k" 7 None 1700000001000);
      unfold safeInteger; simpl; lia.
  - apply (@get_after_set Z {| cache := []; maxSize := 2; defaultTtlMs := 1000 |}
             1700000000000 "k" 7 None 1700000001001);
      unfold safeInteger; simpl; lia.
  - apply (@get_after_set Z {| cache := []; maxSize := 2; defaultTtlMs := 1000 |}
             1700000000000 "k" 7 (Some 0) 1700000000000);
      unfold safeInteger; simpl; lia.
Defined.

Lemma inserts_keep_last_keys_witness :
  JsMap.keys (cache (run {| cache := []; maxSize := 2; defaultTtlMs := 1000 |}
                         (List.map (@insert_op Z)
                                   [(0, "a", 1, None); (1, "b", 2, None); (2, "c", 3, None)])))
  = ["b"; "c"].
Proof.
  apply (@inserts_keep_last_keys Z
           [(0, "a", 1, None); (1, "b", 2, None); (2, "c", 3, None)]
           {| cache := []; maxSize := 2; defaultTtlMs := 1000 |}).
  - simpl. lia.
  - cbn. lia.
  - repeat constructor; simpl; intuition discriminate.
  - simpl. intuition discriminate.
Defined.

Lemma capacity_bound_generated_keys_witness :
  size (run {| cache := []; maxSize := 1; defaultTtlMs := 300000 |}
            [OpSet 0 (generateKey "Rocq" None) 1 None;
             OpSet 1 (generateKey "Lean" None) 2 None]) <= 1.
Proof.
  apply (@capacity_bound_generated_keys Z
           (Some {| opt_maxSize := Some 1; opt_ttlMs := None |})
           [OpSet 0 (generateKey "Rocq" None) 1 None;
            OpSet 1 (generateKey "Lean" None) 2 None]).
  - reflexivity.
  - simpl. lia.
  - repeat constructor; simpl; eauto.
Defined.

Lemma executeSearch_retries_witness :
  let request := WebSearch.Fetch "https://api.tavily.com/search"
                                 (WebSearch.requestBody "key" "rocq") in
  WebSearch.executeSearch "key" "rocq" (steadyNetwork serverError) =
    (Throws "Tavily API error: 500 Internal Server Error",
     [request; WebSearch.Sleep 500; request; WebSearch.Sleep 1000; request]).
Proof.
  apply (@executeSearch_retries "key" "rocq" (steadyNetwork serverError)
           (fun _ => "Tavily API error: 500 Internal Server Error")).
  intros n _. repeat split. left. reflexivity.
Defined.


Lemma execute_failure_not_cached_witness :
  JsMap.get (cache (snd (fst (WebSearch.execute (fun m => m) (Some "key") None
                                {| WebSearch.query := "Foo" |} emptySearchCache 0 5
                                (steadyNetwork serverError)))))
            (WebSearch.cacheKeyOf {| WebSearch.query := "Foo" |}) = None.
Proof.
  apply (@execute_failure_not_cached (fun m => m) (Some "key") None
           {| WebSearch.query := "Foo" |} emptySearchCache 0 5
           (steadyNetwork serverError)
           "Tavily API error: 500 Internal Server Error");
    reflexivity.
Defined.

Lemma webfetch_cached_text_bounded_witness :
  Forall (fun kv => (N.of_nat (String.length (value (snd kv))) <= 100000)%N)
         (cache (snd (fst (WebFetch.executeDirectFetch
                             (fun _ => WebFetch.Failed
                                         {| WebFetch.failure_message := "fetch failed";
                                            WebFetch.failure_cause := None |})
                             (fun html => html)
                             (fun _ => WebFetch.Done (Some "A summary."))
                             samplePage sampleContentCache 10 20)))).
Proof.
  apply webfetch_cached_text_bounded.
  repeat constructor. simpl. lia.
Defined.

Lemma webfetch_cached_text_use_witness :
  snd (WebFetch.executeDirectFetch
         (fun _ => WebFetch.Failed {| WebFetch.failure_message := "fetch failed";
                                      WebFetch.failure_cause := None |})
         (fun html => html)
         (fun _ => WebFetch.Done (Some "A summary."))
         samplePage sampleContentCache 10 20)
  = [WebFetch.Generate (WebFetch.fallbackPrompt samplePage "Hello")].
Proof.
  refine (proj1 (@webfetch_cached_text_use _ _ _ samplePage sampleContentCache 10 20
                   {| value := "Hello"; timestamp := 0; expiresAt := 900000 |}
                   _ _) _).
  - reflexivity.
  - simpl. lia.
  - discriminate.
Defined.

Lemma sample_setter_sets_mode : @setterSetsMode (Approval.ApprovalMode * bool) _.
Proof.
  intros [current trusted] mode. simpl. unfold sampleSetter. simpl.
  destruct mode, trusted; simpl; congruence.
Qed.

Lemma yolo_toggles_witness :
  Approval.getApprovalMode
    (nullish (snd (Commands.yoloAction (Some (Approval.PLAN, true)))) (Approval.PLAN, true))
    = Approval.YOLO.
Proof.
  destruct (@yolo_toggles _ _ sample_setter_sets_mode (Approval.PLAN, true) eq_refl)
    as (config' & Hs & Hm & _).
  rewrite Hs. exact Hm.
Defined.

Lemma toggle_decides_confirmation_witness :
  WebSearch.shouldConfirmExecute
    (nullish (snd (Commands.planAction (Some (Approval.DEFAULT, false))))
             (Approval.DEFAULT, false))
    {| WebSearch.query := "Foo" |} = None.
Proof.
  destruct (@toggle_decides_confirmation _ _ sample_setter_sets_mode
              (Approval.DEFAULT, false) {| WebSearch.query := "Foo" |} samplePage
              {| ImageUrl.url := "https://example.com/a.png"; ImageUrl.description := None |}
              Commands.planAction Approval.PLAN (or_intror (conj eq_refl eq_refl)) eq_refl)
    as (config' & Hs & _ & Hon & _).
  rewrite Hs. apply Hon. discriminate.
Defined.

Lemma proceed_always_ends_confirmation_witness :
  WebSearch.shouldConfirmExecute
    (fst (Approval.onConfirm (Approval.DEFAULT, true) Approval.ProceedAlways))
    {| WebSearch.query := "Foo" |} = None.
Proof.
  destruct (@proceed_always_ends_confirmation _ _ sample_setter_sets_mode
              (Approval.DEFAULT, true) {| WebSearch.query := "Foo" |} samplePage
              {| ImageUrl.url := "https://example.com/a.png"; ImageUrl.description := None |})
    as [Hall _].
  apply Hall. reflexivity.
Defined.

Lemma blob_url_fetched_raw_witness :
  WebFetch.fetchUrl {| WebFetch.url := "https://github.com/rocq-prover/rocq/blob/master/README.md";
                       WebFetch.prompt := "Summarize" |}
  = "https://raw.githubusercontent.com/rocq-prover/rocq/master/README.md".
Proof.
  exact (proj1 (proj1 (blob_url_fetched_raw "rocq-prover/rocq" "master/README.md")
                      eq_refl "Summarize" None)).
Defined.

Lemma webfetch_fetch_failure_stops_witness :
  snd (WebFetch.executeDirectFetch
         (fun _ => WebFetch.Done {| WebFetch.ok := false;
                                    WebFetch.status := 404;
                                    WebFetch.statusText := "Not Found";
                                    WebFetch.text := WebFetch.Done "" |})
         (fun html => html)
         (fun _ => WebFetch.Done (Some "A summary."))
         samplePage {| cache := []; maxSize := 30; defaultTtlMs := 900000 |} 10 20)
  = [WebFetch.Fetch (WebFetch.fetchUrl samplePage)].
Proof.
  refine (proj1 (@webfetch_fetch_failure_stops _ _ _ samplePage
                   {| cache := []; maxSize := 30; defaultTtlMs := 900000 |} 10 20 _ _)).
  - reflexivity.
  - left. reflexivity.
Defined.
End Instances.

(** * C8: the key is the normalised primary *)
Section KeyNormalization.
Import JsString SearchCache.
Local Open Scope string_scope.
























End KeyNormalization.
